(** * playwright-step-decorator: a shallow embedding in Rocq

    The embedded source is [src/playwright-step-decorator.ts] in its latest
    form (the one with call-site location capture and stack filtering):
    [step]/[replacementMethod], [getStepInfo], [captureCallSiteLocation],
    [extractFunctionParamNames], [getPlaceholders], [findMissingParams],
    [formatDescription] and [filterDecoratorFrames].

    JavaScript strings are modelled as [string] (one byte per code unit;
    code units above 255 are not represented).  The regular expressions of
    the source are run by a small backtracking matcher ([match_here],
    [regex_exec], [match_all]) that follows the ECMAScript semantics for the
    fragment they use: literals, anchors, and greedy or lazy repetition of a
    character class, possibly captured.

    Numbers are those the code meets: [NaN], the infinities and integral
    doubles; [parseInt] rounds its digits to the nearest double and numbers
    print as Number::toString does.  Argument values are primitives (numbers
    with integral values), ordinary objects with data properties and a
    prototype chain ending in [Object.prototype] or [null], and functions;
    property lookup with [in] and [x[k]] follows the chain, and [String(v)]
    calls [toString] and then [valueOf], throwing a [TypeError] when neither
    gives a primitive.  Getters, symbols, arrays and other exotic objects are
    not represented. *)

From Stdlib Require Import String Ascii List Bool Arith Lia ZArith.
From Stdlib Require Import Numbers.DecimalString.
Set Warnings "-register-all".
Import ListNotations.
Open Scope list_scope.
Open Scope string_scope.

(* ------------------------------------------------------------------ *)
(** ** JavaScript string primitives *)

Module JsString.

Definition char_eqb (a b : ascii) : bool := if ascii_dec a b then true else false.

(** [s.startsWith(p)] *)
Fixpoint starts_with (p s : string) : bool :=
  match p, s with
  | EmptyString, _ => true
  | String c p', String d s' => char_eqb c d && starts_with p' s'
  | String _ _, EmptyString => false
  end.

(** [s.slice(n)] for [n >= 0] *)
Fixpoint sdrop (n : nat) (s : string) : string :=
  match n, s with
  | O, _ => s
  | S n', String _ s' => sdrop n' s'
  | S _, EmptyString => EmptyString
  end.

(** [s.slice(0, n)] for [n >= 0] *)
Fixpoint stake (n : nat) (s : string) : string :=
  match n, s with
  | O, _ => EmptyString
  | S n', String c s' => String c (stake n' s')
  | S _, EmptyString => EmptyString
  end.

(** [s.endsWith(p)] *)
Definition ends_with (p s : string) : bool :=
  Nat.leb (String.length p) (String.length s) && starts_with p (sdrop (String.length s - String.length p) s).

(** [s.indexOf(pat)], with [-1] as [None] *)
Fixpoint index_of (pat s : string) : option nat :=
  if starts_with pat s then Some 0
  else match s with
       | EmptyString => None
       | String _ s' => option_map S (index_of pat s')
       end.

(** [s.includes(sub)] *)
Definition includes (s sub : string) : bool :=
  match index_of sub s with Some _ => true | None => false end.

(** [s.split(sep)] for a one-character separator: [""] splits to [[""]]. *)
Fixpoint split (sep : ascii) (s : string) : list string :=
  match s with
  | EmptyString => [EmptyString]
  | String c s' =>
      let rest := split sep s' in
      if char_eqb c sep then EmptyString :: rest
      else match rest with
           | [] => [String c EmptyString]
           | x :: xs => String c x :: xs
           end
  end.

(** [l.join(sep)] *)
Fixpoint join (sep : string) (l : list string) : string :=
  match l with
  | [] => EmptyString
  | [x] => x
  | x :: xs => x ++ sep ++ join sep xs
  end.

(** WhiteSpace and LineTerminator code units (Latin-1 range), as used by
    [\s], [trim] and [parseInt]. *)
Definition is_space (c : ascii) : bool :=
  let n := nat_of_ascii c in
  (Nat.leb 9 n && Nat.leb n 13) || Nat.eqb n 32 || Nat.eqb n 160.

Definition is_line_terminator (c : ascii) : bool :=
  let n := nat_of_ascii c in Nat.eqb n 10 || Nat.eqb n 13.

Definition is_digit (c : ascii) : bool :=
  let n := nat_of_ascii c in Nat.leb 48 n && Nat.leb n 57.

Fixpoint trim_start (s : string) : string :=
  match s with
  | String c s' => if is_space c then trim_start s' else s
  | EmptyString => EmptyString
  end.

Fixpoint rev_string (s : string) : string :=
  match s with
  | EmptyString => EmptyString
  | String c s' => rev_string s' ++ String c EmptyString
  end.

(** [s.trim()] *)
Definition trim (s : string) : string :=
  rev_string (trim_start (rev_string (trim_start s))).

(** A JavaScript number as the code meets it: [NaN], an infinity, or a
    finite number with an integer value ([Fin z], [z] a double: [parseInt]
    of decimal digits, [args.length]).  [-0] is written [Fin 0]: the code
    treats it as [+0] (printing, comparisons, indexing). *)
Inductive js_number := NaN | Infinity (negative : bool) | Fin (z : Z).

(** The double nearest to [z >= 0], ties to even, [Infinity] past the
    largest finite double. *)
Definition double_of_nonneg (z : Z) : js_number :=
  if (z <? 2 ^ 53)%Z then Fin z
  else
    let e := (Z.log2 z - 52)%Z in
    let q := (z / 2 ^ e)%Z in
    let r := (z mod 2 ^ e)%Z in
    let half := (2 ^ (e - 1))%Z in
    let q' := if (half <? r)%Z || ((r =? half)%Z && Z.odd q) then (q + 1)%Z else q in
    if (2 ^ 1024 <=? q' * 2 ^ e)%Z then Infinity false else Fin (q' * 2 ^ e).

(** The Number value for the mathematical integer [z]. *)
Definition number_of_Z (z : Z) : js_number :=
  if (z <? 0)%Z then
    match double_of_nonneg (- z) with
    | Fin y => Fin (- y)
    | Infinity _ => Infinity true
    | NaN => NaN
    end
  else double_of_nonneg z.

Fixpoint digits_prefix (s : string) : string :=
  match s with
  | String c s' => if is_digit c then String c (digits_prefix s') else EmptyString
  | EmptyString => EmptyString
  end.

Fixpoint digits_value_acc (acc : Z) (s : string) : Z :=
  match s with
  | String c s' => digits_value_acc (acc * 10 + Z.of_nat (nat_of_ascii c - 48)) s'
  | EmptyString => acc
  end.

(** [parseInt(s, 10)]: leading white space, an optional sign, the longest
    prefix of decimal digits, whose value is rounded to a double; no digit
    gives [NaN]. *)
Definition parse_int (s : string) : js_number :=
  let s1 := trim_start s in
  let '(sign, s2) :=
    match s1 with
    | String c s' =>
        if char_eqb c "-" then ((-1)%Z, s')
        else if char_eqb c "+" then (1%Z, s') else (1%Z, s1)
    | EmptyString => (1%Z, s1)
    end in
  match digits_prefix s2 with
  | EmptyString => NaN
  | d => number_of_Z (sign * digits_value_acc 0 d)%Z
  end.

(** The decimal digits of an integer. *)
Definition z_to_string (z : Z) : string := NilZero.string_of_int (Z.to_int z).

(** Number::toString for a finite integral double [x > 0]: the digits [s]
    and the scale [10^p] of the shortest decimal that converts back to [x];
    among the two candidates with the same number of digits, the nearer to
    [x], the even one on a tie. *)
Definition rounds_to (v x : Z) : bool :=
  match number_of_Z v with Fin y => Z.eqb y x | _ => false end.

Definition strip_zero (c : Z * Z) : Z * Z :=
  let '(s, p) := c in if (s mod 10 =? 0)%Z then ((s / 10)%Z, (p + 1)%Z) else (s, p).

Definition nearest_at (x p : Z) : option (Z * Z) :=
  let lo := (x / 10 ^ p)%Z in
  let hi := (lo + 1)%Z in
  let dlo := (x - lo * 10 ^ p)%Z in
  let dhi := (hi * 10 ^ p - x)%Z in
  match rounds_to (lo * 10 ^ p) x, rounds_to (hi * 10 ^ p) x with
  | true, true =>
      if (dlo <? dhi)%Z || ((dlo =? dhi)%Z && Z.even lo) then Some (lo, p)
      else Some (strip_zero (hi, p))
  | true, false => Some (lo, p)
  | false, true => Some (strip_zero (hi, p))
  | false, false => None
  end.

(** The scales [10^(n-1)], ..., [10^0] in turn, the first with a candidate. *)
Fixpoint shortest_from (x : Z) (n : nat) : option (Z * Z) :=
  match n with
  | O => None
  | S n' =>
      match nearest_at x (Z.of_nat n') with
      | Some c => Some c
      | None => shortest_from x n'
      end
  end.

(** [s] with [k] digits scaled by [10^p], [n = k + p > 21]: the exponent form. *)
Definition exp_form (s p : Z) : string :=
  let ds := z_to_string s in
  let e := z_to_string (Z.of_nat (String.length ds) + p - 1) in
  match ds with
  | String c (String _ _ as rest) => String c ("." ++ rest) ++ "e+" ++ e
  | _ => ds ++ "e+" ++ e
  end.

(** [x >= 0]; below [10^21] the digits of [s] followed by [p] zeros, that
    is the decimal of [s * 10^p]. *)
Definition nonneg_to_string (x : Z) : string :=
  if (x =? 0)%Z then "0"
  else match shortest_from x (String.length (z_to_string x)) with
       | Some (s, p) =>
           if (s * 10 ^ p <? 10 ^ 21)%Z then z_to_string (s * 10 ^ p) else exp_form s p
       | None => z_to_string x   (* not reached: [p = 0] gives [x] itself *)
       end.

(** Number to string, as in template literals and [String(n)]. *)
Definition number_to_string (n : js_number) : string :=
  match n with
  | NaN => "NaN"
  | Infinity false => "Infinity"
  | Infinity true => "-Infinity"
  | Fin z => if (z <? 0)%Z then "-" ++ nonneg_to_string (- z) else nonneg_to_string z
  end.

(** [`${args.length}`] *)
Definition nat_to_string (n : nat) : string := number_to_string (number_of_Z (Z.of_nat n)).

(** GetSubstitution for a string pattern (no capture groups): [$$], [$&],
    [$`] and [$'] are special, every other [$] is literal. *)
Fixpoint get_substitution (matched before after rep : string) : string :=
  match rep with
  | EmptyString => EmptyString
  | String c r =>
      if char_eqb c "$" then
        match r with
        | String d r' =>
            if char_eqb d "$" then "$" ++ get_substitution matched before after r'
            else if char_eqb d "&" then matched ++ get_substitution matched before after r'
            else if char_eqb d "`" then before ++ get_substitution matched before after r'
            else if char_eqb d "'" then after ++ get_substitution matched before after r'
            else String c (get_substitution matched before after r)
        | EmptyString => String c EmptyString
        end
      else String c (get_substitution matched before after r)
  end.

(** [s.replace(pat, rep)] with a string pattern: only the first occurrence. *)
Definition replace (s pat rep : string) : string :=
  match index_of pat s with
  | None => s
  | Some i =>
      let before := stake i s in
      let after := sdrop (i + String.length pat) s in
      before ++ get_substitution pat before after rep ++ after
  end.

End JsString.

Import JsString.

(* ------------------------------------------------------------------ *)
(** ** Regular expressions of the source *)

Module Regex.

Inductive char_class :=
| AnyChar            (** [[\s\S]] *)
| DotChar            (** [.] : anything but a line terminator *)
| DigitChar          (** [\d] *)
| SpaceChar          (** [\s] *)
| NotChar (c : ascii). (** [[^c]] *)

Definition class_matches (k : char_class) (c : ascii) : bool :=
  match k with
  | AnyChar => true
  | DotChar => negb (is_line_terminator c)
  | DigitChar => is_digit c
  | SpaceChar => is_space c
  | NotChar d => negb (char_eqb c d)
  end.

Inductive atom :=
| Begin                                   (** [^] without the m flag *)
| End_                                    (** [$] without the m flag *)
| Lit (c : ascii)
| Rep (k : char_class) (min : nat) (greedy capture : bool).
(** [Rep k 0 false true] is [(k*?)], [Rep k 1 true true] is [(k+)], ... *)

Definition regex := list atom.

Fixpoint run_length (k : char_class) (s : string) : nat :=
  match s with
  | String c s' => if class_matches k c then S (run_length k s') else O
  | EmptyString => O
  end.

(** The repetition counts in the order backtracking tries them. *)
Definition rep_candidates (min run : nat) (greedy : bool) : list nat :=
  let l := seq min (S run - min) in if greedy then rev l else l.

Fixpoint first_some {A B : Type} (f : A -> option B) (l : list A) : option B :=
  match l with
  | [] => None
  | x :: xs => match f x with Some y => Some y | None => first_some f xs end
  end.

(** Match [r] at the front of [s]; on success, the captures and the rest. *)
Fixpoint match_here (r : regex) (at_start : bool) (s : string)
  : option (list string * string) :=
  match r with
  | [] => Some ([], s)
  | Begin :: r' => if at_start then match_here r' at_start s else None
  | End_ :: r' =>
      match s with EmptyString => match_here r' at_start s | _ => None end
  | Lit c :: r' =>
      match s with
      | String d s' => if char_eqb c d then match_here r' false s' else None
      | EmptyString => None
      end
  | Rep k mn g cap :: r' =>
      first_some
        (fun n =>
           match match_here r' (at_start && Nat.eqb n 0) (sdrop n s) with
           | Some (cs, rest) => Some (if cap then stake n s :: cs else cs, rest)
           | None => None
           end)
        (rep_candidates mn (run_length k s) g)
  end.

(** RegExpBuiltinExec: the leftmost position where [r] matches; returns the
    input from that position, the captures and the rest after the match. *)
Fixpoint exec_from (r : regex) (at_start : bool) (s : string)
  : option (string * list string * string) :=
  match match_here r at_start s with
  | Some (cs, rest) => Some (s, cs, rest)
  | None =>
      match s with
      | EmptyString => None
      | String _ s' => exec_from r false s'
      end
  end.

(** [s.match(r)] for a regex without the g flag: its captures. *)
Definition regex_match (r : regex) (s : string) : option (list string) :=
  match exec_from r true s with
  | Some (_, cs, _) => Some cs
  | None => None
  end.

Fixpoint match_all_fuel (fuel : nat) (r : regex) (at_start : bool) (s : string)
  : list (list string) :=
  match fuel with
  | O => []
  | S f =>
      match exec_from r at_start s with
      | None => []
      | Some (from, cs, rest) =>
          if Nat.eqb (String.length rest) (String.length from) then
            (* empty match: advance one code unit *)
            match rest with
            | EmptyString => [cs]
            | String _ rest' => cs :: match_all_fuel f r false rest'
            end
          else cs :: match_all_fuel f r false rest
      end
  end.

(** [Array.from(s.matchAll(r))] for a regex with the g flag: the captures of
    each match. *)
Definition match_all (r : regex) (s : string) : list (list string) :=
  match_all_fuel (S (String.length s)) r true s.

End Regex.

Import Regex.

(* ------------------------------------------------------------------ *)
(** ** Runtime values *)

Module Value.

(** The values the decorator handles.  [VNum z] is the Number value for the
    integer [z] (the double nearest to it); non-integral numbers, [NaN] and
    the infinities are not represented as values.  [VObj own proto] is an
    ordinary object: its own enumerable data properties (distinct keys) and
    its prototype.  [VFun src body] is a function with source text [src];
    called as a method of the object it is read from, with no argument, it
    returns or throws as [body] says. *)
Inductive value :=
| VUndefined
| VNull
| VBool (b : bool)
| VNum (z : Z)
| VStr (s : string)
| VObj (own : list (string * value)) (proto : proto)
| VFun (src : string) (body : fbody)
with proto :=
| PNull                                               (** [Object.create(null)] *)
| PObjectPrototype                                    (** [Object.prototype] *)
| PObj (own : list (string * value)) (proto : proto)  (** an object of the model *)
with fbody :=
| FReturn (v : value)
| FThrow (v : value).

(** The functions [Object.prototype] owns. *)
Inductive native :=
| NObject | NDefineGetter | NDefineSetter | NHasOwnProperty | NLookupGetter
| NLookupSetter | NIsPrototypeOf | NPropertyIsEnumerable | NToString | NValueOf
| NToLocaleString.

Definition native_name (n : native) : string :=
  match n with
  | NObject => "Object"
  | NDefineGetter => "__defineGetter__"
  | NDefineSetter => "__defineSetter__"
  | NHasOwnProperty => "hasOwnProperty"
  | NLookupGetter => "__lookupGetter__"
  | NLookupSetter => "__lookupSetter__"
  | NIsPrototypeOf => "isPrototypeOf"
  | NPropertyIsEnumerable => "propertyIsEnumerable"
  | NToString => "toString"
  | NValueOf => "valueOf"
  | NToLocaleString => "toLocaleString"
  end.

(** The own properties of [Object.prototype] but its [__proto__] accessor. *)
Definition object_prototype_functions : list (string * native) :=
  [("constructor", NObject); ("__defineGetter__", NDefineGetter);
   ("__defineSetter__", NDefineSetter); ("hasOwnProperty", NHasOwnProperty);
   ("__lookupGetter__", NLookupGetter); ("__lookupSetter__", NLookupSetter);
   ("isPrototypeOf", NIsPrototypeOf); ("propertyIsEnumerable", NPropertyIsEnumerable);
   ("toString", NToString); ("valueOf", NValueOf); ("toLocaleString", NToLocaleString)].

(** What a variable of the code can hold when it walks a property path: a
    value of the model, a function of [Object.prototype], or
    [Object.prototype] itself (read through [__proto__]). *)
Inductive jsval := JV (v : value) | JNative (n : native) | JObjectPrototype.

Fixpoint assoc {A : Type} (k : string) (props : list (string * A)) : option A :=
  match props with
  | [] => None
  | (k', v) :: ps => if String.eqb k k' then Some v else assoc k ps
  end.

Definition object_prototype_has (k : string) : bool :=
  String.eqb k "__proto__" ||
  match assoc k object_prototype_functions with Some _ => true | None => false end.

Definition proto_jsval (p : proto) : jsval :=
  match p with
  | PNull => JV VNull
  | PObjectPrototype => JObjectPrototype
  | PObj own p' => JV (VObj own p')
  end.

(** A property of [Object.prototype] read on an object whose prototype is
    [recv]: the [__proto__] getter gives [recv]. *)
Definition object_prototype_get (recv : proto) (k : string) : jsval :=
  if String.eqb k "__proto__" then proto_jsval recv
  else match assoc k object_prototype_functions with
       | Some n => JNative n
       | None => JV VUndefined
       end.

Fixpoint proto_has (p : proto) (k : string) : bool :=
  match p with
  | PNull => false
  | PObjectPrototype => object_prototype_has k
  | PObj own p' => match assoc k own with Some _ => true | None => proto_has p' k end
  end.

Fixpoint proto_get (recv p : proto) (k : string) : jsval :=
  match p with
  | PNull => JV VUndefined
  | PObjectPrototype => object_prototype_get recv k
  | PObj own p' => match assoc k own with Some v => JV v | None => proto_get recv p' k end
  end.

(** [value && typeof value === "object"] *)
Definition is_object (x : jsval) : bool :=
  match x with
  | JV (VObj _ _) | JObjectPrototype => true
  | _ => false
  end.

(** [k in x], for an object [x]: own or inherited. *)
Definition has_property (x : jsval) (k : string) : bool :=
  match x with
  | JV (VObj own p) => match assoc k own with Some _ => true | None => proto_has p k end
  | JObjectPrototype => object_prototype_has k
  | _ => false     (* the code asks [in] of objects only *)
  end.

(** [x[k]], for an object [x]. *)
Definition get (x : jsval) (k : string) : jsval :=
  match x with
  | JV (VObj own p) => match assoc k own with Some v => JV v | None => proto_get p p k end
  | JObjectPrototype => object_prototype_get PNull k
  | _ => JV VUndefined   (* the code reads properties of objects only *)
  end.

(** An exception [String(v)] can throw: the [TypeError] of a conversion
    that finds no primitive, or what a user [toString]/[valueOf] throws. *)
Inductive js_exn := ExnTypeError (message : string) | ExnThrow (v : value).

(** ToString of a primitive. *)
Definition primitive_to_string (v : value) : string :=
  match v with
  | VUndefined => "undefined"
  | VNull => "null"
  | VBool true => "true"
  | VBool false => "false"
  | VNum z => number_to_string (number_of_Z z)
  | VStr s => s
  | VObj _ _ | VFun _ _ => EmptyString   (* not primitives: not reached *)
  end.

(** One step of OrdinaryToPrimitive: call [x[name]] when it is a function.
    [Some] a primitive result or an exception; [None] to go on (not a
    function, or it returned an object). *)
Definition try_method (x : jsval) (name : string) : option (js_exn + value) :=
  match get x name with
  | JV (VFun _ (FReturn r)) =>
      match r with
      | VObj _ _ | VFun _ _ => None
      | _ => Some (inr r)
      end
  | JV (VFun _ (FThrow t)) => Some (inl (ExnThrow t))
  | JNative NToString => Some (inr (VStr "[object Object]"))  (* on an ordinary object *)
  | JNative NValueOf => None                                 (* returns the object *)
  | JNative _ => None  (* not reached: [toString] and [valueOf] read no other native *)
  | JV _ | JObjectPrototype => None                          (* not callable *)
  end.

(** [String(v)]: functions give their source text; objects go through
    OrdinaryToPrimitive with hint string ([toString], then [valueOf]), no
    primitive result being a [TypeError]. *)
Definition js_String (x : jsval) : js_exn + string :=
  match x with
  | JV (VFun src _) => inr src
  | JNative n => inr ("function " ++ native_name n ++ "() { [native code] }")
  | JV (VObj _ _) | JObjectPrototype =>
      match try_method x "toString" with
      | Some (inl e) => inl e
      | Some (inr p) => inr (primitive_to_string p)
      | None =>
          match try_method x "valueOf" with
          | Some (inl e) => inl e
          | Some (inr p) => inr (primitive_to_string p)
          | None => inl (ExnTypeError "Cannot convert object to primitive value")
          end
      end
  | JV v => inr (primitive_to_string v)
  end.

(** [args[i]]: [undefined] out of range. *)
Definition arg_at (args : list value) (i : nat) : value := nth i args VUndefined.

End Value.

Import Value.

(* ------------------------------------------------------------------ *)
(** ** Placeholder extraction and formatting *)

Module Decorator.

(** [/\{\{(.*?)\}\}/g] *)
Definition curly_re : regex :=
  [Lit "{"; Lit "{"; Rep DotChar 0 false true; Lit "}"; Lit "}"].

(** [/\[\[(\d+)\]\]/g] *)
Definition square_re : regex :=
  [Lit "["; Lit "["; Rep DigitChar 1 true true; Lit "]"; Lit "]"].

(** [/^[\s\S]*?\((...)\)/], the group being the greedy [[^)]] star. *)
Definition param_re : regex :=
  [Begin; Rep AnyChar 0 false false; Lit "("; Rep (NotChar ")") 0 true true; Lit ")"].

Definition capture1 (cs : list string) : string := nth 0 cs "".

(** [extractFunctionParamNames(target)], given [target.toString()] *)
Definition extractFunctionParamNames (fnStr : string) : list string :=
  match regex_match param_re fnStr with
  | None => []
  | Some cs =>
      filter (fun p => negb (Nat.eqb (String.length p) 0))
        (map trim (split "," (capture1 cs)))
  end.

Definition curly_matches (description : string) : list string :=
  map capture1 (match_all curly_re description).

Definition square_matches (description : string) : list string :=
  map capture1 (match_all square_re description).

(** [getPlaceholders(description)] *)
Definition getPlaceholders (description : string) : list string :=
  curly_matches description ++ map (fun d => "[[" ++ d ++ "]]") (square_matches description).

(** [ph.split(".")[0]] *)
Definition root (ph : string) : string := hd "" (split "." ph).

Definition mem (x : string) (l : list string) : bool := existsb (String.eqb x) l.

(** [findMissingParams(placeholders, paramNames)] *)
Definition findMissingParams (placeholders paramNames : list string) : list string :=
  filter (fun param => negb (mem param paramNames))
    (map root (filter (fun ph => negb (starts_with "[[" ph)) placeholders)).

(** The three errors the formatting path throws ([new Error(message)]). *)
Inductive step_error :=
| MissingParameters (methodName : string) (missing : list string)
| IndexOutOfBounds (methodName : string) (index : js_number) (count : nat)
| MissingProperty (methodName placeholder prop root : string).

Definition error_message (e : step_error) : string :=
  match e with
  | MissingParameters m missing =>
      "Missing function parameters (" ++ join ", " missing ++ ") in method '" ++ m
      ++ "'. Please check your @step decorator placeholders."
  | IndexOutOfBounds m index count =>
      "Parameter index '" ++ number_to_string index ++ "' is out of bounds in method '" ++ m
      ++ "'. " ++ "This method received " ++ nat_to_string count
      ++ " argument(s), but the @step decorator references index " ++ number_to_string index
      ++ ". " ++ "Please check your @step decorator placeholders."
  | MissingProperty m ph prop rt =>
      "Invalid @step placeholder '{{" ++ ph ++ "}}' in method '" ++ m ++ "': "
      ++ "Property '" ++ prop ++ "' does not exist on parameter '" ++ rt ++ "'. "
      ++ "Please check your @step decorator placeholders."
  end.

(** The inner loop over [parts.slice(1)]: [value && typeof value === "object"
    && parts[i] in value], then [value = value[parts[i]]]; [in] sees own
    and inherited properties.  On failure, the missing segment. *)
Fixpoint walk_path (x : jsval) (path : list string) : string + jsval :=
  match path with
  | [] => inr x
  | p :: rest =>
      if is_object x && has_property x p then walk_path (get x p) rest else inl p
  end.

(** [placeholder.slice(2, -2)] *)
Definition slice_2_m2 (ph : string) : string := stake (String.length ph - 4) (sdrop 2 ph).

(** [paramNames.indexOf(x)], with [-1] as [None] *)
Fixpoint list_index_of (x : string) (l : list string) : option nat :=
  match l with
  | [] => None
  | y :: ys => if String.eqb x y then Some 0 else option_map S (list_index_of x ys)
  end.

(** The value of a named placeholder: [parts = placeholder.split(".")],
    [value = args[paramNames.indexOf(parts[0])]], then the walk over
    [parts.slice(1)]; on failure the missing segment. *)
Definition resolve_named (paramNames : list string) (args : list value) (ph : string)
  : string + jsval :=
  let parts := split "." ph in
  let value :=
    match list_index_of (hd "" parts) paramNames with
    | Some i => arg_at args i
    | None => VUndefined            (* args[-1] *)
    end in
  walk_path (JV value) (tl parts).

(** What the formatting loop throws: one of its own errors, or the exception
    of a [String(...)] conversion. *)
Inductive format_error :=
| FormatError (e : step_error)
| ConversionError (x : js_exn).

(** One iteration of the [for (const placeholder of placeholders)] loop. *)
Definition format_placeholder (methodName : string) (paramNames : list string)
    (args : list value) (result ph : string) : format_error + string :=
  if starts_with "[[" ph && ends_with "]]" ph then
    let index := parse_int (slice_2_m2 ph) in
    match index with
    | Fin z =>
        if (z <? 0)%Z || (Z.of_nat (List.length args) <=? z)%Z
        then inl (FormatError (IndexOutOfBounds methodName index (List.length args)))
        else match js_String (JV (arg_at args (Z.to_nat z))) with
             | inl x => inl (ConversionError x)
             | inr s => inr (replace result ("[[" ++ number_to_string index ++ "]]") s)
             end
    | NaN | Infinity _ =>
        inl (FormatError (IndexOutOfBounds methodName index (List.length args)))
    end
  else
    match resolve_named paramNames args ph with
    | inl prop => inl (FormatError (MissingProperty methodName ph prop (hd "" (split "." ph))))
    | inr v =>
        match js_String v with
        | inl x => inl (ConversionError x)
        | inr s => inr (replace result ("{{" ++ ph ++ "}}") s)
        end
    end.

(** The loop of [formatDescription], from a partial result. *)
Fixpoint format_loop (methodName : string) (paramNames : list string)
    (args : list value) (placeholders : list string) (result : string)
    : format_error + string :=
  match placeholders with
  | [] => inr result
  | ph :: rest =>
      match format_placeholder methodName paramNames args result ph with
      | inl e => inl e
      | inr result' => format_loop methodName paramNames args rest result'
      end
  end.

(** [formatDescription(methodName, description, placeholders, paramNames, args)] *)
Definition formatDescription (methodName description : string)
    (placeholders paramNames : list string) (args : list value) : format_error + string :=
  format_loop methodName paramNames args placeholders description.

(** Lines 44-56 of [replacementMethod]: the description a call reports, or
    the error it throws.  [description] is the decorator argument ([if
    (description)]: absent or empty means the default [methodName]), [fnStr]
    is [target.toString()]. *)
Definition step_description (methodName : string) (description : option string)
    (fnStr : string) (args : list value) : format_error + string :=
  match description with
  | None | Some EmptyString => inr methodName
  | Some d =>
      let paramNames := extractFunctionParamNames fnStr in
      let placeholders := getPlaceholders d in
      let missingParams := findMissingParams placeholders paramNames in
      match missingParams with
      | _ :: _ => inl (FormatError (MissingParameters methodName missingParams))
      | [] => formatDescription methodName d placeholders paramNames args
      end
  end.

(* ------------------------------------------------------------------ *)
(** *** [captureCallSiteLocation] *)

Record location := { loc_file : string; loc_line : js_number; loc_column : js_number }.

(** [/\((.+):(\d+):(\d+)\)$/] *)
Definition frame_re_paren : regex :=
  [Lit "("; Rep DotChar 1 true true; Lit ":"; Rep DigitChar 1 true true; Lit ":";
   Rep DigitChar 1 true true; Lit ")"; End_].

(** [/at\s+(.+):(\d+):(\d+)$/] *)
Definition frame_re_at : regex :=
  [Lit "a"; Lit "t"; Rep SpaceChar 1 true false; Rep DotChar 1 true true; Lit ":";
   Rep DigitChar 1 true true; Lit ":"; Rep DigitChar 1 true true; End_].

Definition ignoredFragments : list string :=
  [ "node_modules"; "node:internal"; "/playwright-step-decorator.ts";
    "\playwright-step-decorator.ts"; "/src/playwright-step-decorator";
    "\src\playwright-step-decorator"; "/dist/playwright-step-decorator";
    "\dist\playwright-step-decorator" ].

Definition is_ignored (file : string) : bool :=
  existsb (fun fragment => includes file fragment) ignoredFragments.

(** [line.match(re1) || line.match(re2)], destructured as [[, file, lineNum, col]] *)
Definition parse_frame (line : string) : option (string * string * string) :=
  let m := match regex_match frame_re_paren line with
           | Some cs => Some cs
           | None => regex_match frame_re_at line
           end in
  match m with
  | Some cs => Some (nth 0 cs "", nth 1 cs "", nth 2 cs "")
  | None => None
  end.

(** The [for (let i = 3; ...)] loop, over the lines from index 3 on. *)
Fixpoint scan_frames (lines : list string) : option location :=
  match lines with
  | [] => None
  | line :: rest =>
      match parse_frame line with
      | Some (file, lineNum, col) =>
          if negb (is_ignored file)
          then Some {| loc_file := file; loc_line := parse_int lineNum;
                       loc_column := parse_int col |}
          else scan_frames rest
      | None => scan_frames rest
      end
  end.

(** [captureCallSiteLocation()], given [new Error().stack] at that point. *)
Definition captureCallSiteLocation (stack : option string) : option location :=
  match stack with
  | None | Some EmptyString => None
  | Some s => scan_frames (skipn 3 (split "010" s))
  end.

(** [filterDecoratorFrames(stack)] *)
Definition filterDecoratorFrames (stack : string) : string :=
  join (String "010" EmptyString)
    (filter (fun line => negb (includes line "playwright-step-decorator"))
       (split "010" stack)).

End Decorator.

Import Decorator.

(* ------------------------------------------------------------------ *)
(** ** The decorated method: [replacementMethod] and [getStepInfo] *)

Module Wrapper.

(** An [Error] object: its identity, [name], [message] and [stack]. *)
Record js_error := {
  err_id : nat;
  err_name : string;
  err_message : string;
  err_stack : option string }.

(** A thrown value: an [Error] instance or any other value. *)
Inductive thrown := ThrowError (e : js_error) | ThrowValue (v : value).

(** What an [await]ed call evaluates to: a value, or the [TestStepInfo]
    object of a step (identified by its number). *)
Inductive result := RValue (v : value) | RStepInfo (step : nat).

Inductive completion := Normal (r : result) | Abrupt (t : thrown).

(** What a call of [replacementMethod] does: throw synchronously, or return
    the promise of [test.step], here already settled. *)
Inductive call_result := SyncThrow (t : thrown) | Returned (c : completion).

Inductive event :=
| EvStep (description : string) (loc : option location)  (** [test.step] invoked *)
| EvLog (msg : string).                                  (** an effect of a method body *)

(** The state the decorator touches: the instance's [this[StepSymbol]]
    property, the observable events (most recent first) and the allocator
    of fresh object identities. *)
Record world := { slot : option nat; trace : list event; next_id : nat }.

Definition set_slot (w : world) (v : option nat) : world :=
  {| slot := v; trace := trace w; next_id := next_id w |}.

(** [new Error(message)]; its stack holds the header line. *)
Definition new_error (w : world) (message : string) : world * js_error :=
  ({| slot := slot w; trace := trace w; next_id := S (next_id w) |},
   {| err_id := next_id w; err_name := "Error"; err_message := message;
      err_stack := Some ("Error: " ++ message) |}).

(** The [TypeError] the engine throws when a conversion fails. *)
Definition new_type_error (w : world) (message : string) : world * js_error :=
  ({| slot := slot w; trace := trace w; next_id := S (next_id w) |},
   {| err_id := next_id w; err_name := "TypeError"; err_message := message;
      err_stack := Some ("TypeError: " ++ message) |}).

(** What escapes [replacementMethod] when the description cannot be built. *)
Definition throw_format_error (w : world) (e : format_error) : world * thrown :=
  match e with
  | FormatError e' => let (w', err) := new_error w (error_message e') in (w', ThrowError err)
  | ConversionError (ExnTypeError msg) =>
      let (w', err) := new_type_error w msg in (w', ThrowError err)
  | ConversionError (ExnThrow v) => (w, ThrowValue v)
  end.

Definition no_step_context_message : string :=
  "No Playwright step context found. Make sure this method is decorated with @step.".

(** [getStepInfo(this)]: [instance[StepSymbol]], or throw. *)
Definition getStepInfo (w : world) : world * completion :=
  match slot w with
  | Some step => (w, Normal (RStepInfo step))
  | None => let (w', e) := new_error w no_step_context_message in (w', Abrupt (ThrowError e))
  end.

(** Playwright's [test.step(title, body, { location })], which is not part of
    this repository, as the spec describes it: it records one step, runs
    the body with a fresh [TestStepInfo] and passes its result or error
    through. *)
Definition test_step (title : string) (loc : option location)
    (body : nat -> world -> world * completion) (w : world) : world * completion :=
  body (next_id w)
    {| slot := slot w; trace := EvStep title loc :: trace w; next_id := S (next_id w) |}.

(** The [catch] block: [if (error instanceof Error && error.stack)
    error.stack = filterDecoratorFrames(error.stack); throw error;] *)
Definition catch_rethrow (t : thrown) : thrown :=
  match t with
  | ThrowError e =>
      match err_stack e with
      | Some st =>
          if Nat.eqb (String.length st) 0 then t
          else ThrowError {| err_id := err_id e; err_name := err_name e;
                             err_message := err_message e;
                             err_stack := Some (filterDecoratorFrames st) |}
      | None => t
      end
  | ThrowValue _ => t
  end.

(** [replacementMethod] called on an instance of class [ctorName], for the
    method [name] decorated with [@step(description)]; [fnStr] is
    [target.toString()], [stack] is the [new Error().stack] seen by
    [captureCallSiteLocation], [target] runs the original method body. *)
Definition replacementMethod (ctorName name : string) (description : option string)
    (fnStr : string) (args : list value) (stack : option string)
    (target : world -> world * completion) (w : world) : world * call_result :=
  let methodName := ctorName ++ "." ++ name in
  match step_description methodName description fnStr args with
  | inl e => let (w', t) := throw_format_error w e in (w', SyncThrow t)
  | inr formattedDescription =>
      let location := captureCallSiteLocation stack in
      let (w', c') :=
        test_step formattedDescription location
          (fun step w1 =>
             let (w2, c) := target (set_slot w1 (Some step)) in
             let c' := match c with
                       | Normal v => Normal v
                       | Abrupt t => Abrupt (catch_rethrow t)
                       end in
             (set_slot w2 None, c'))       (* finally: delete this[StepSymbol] *)
          w in
      (w', Returned c')
  end.

(** Method bodies of the decorated class: enough of the language to call
    decorated methods (nested, on the same instance), catch errors and look
    up the step context. *)
Inductive prog :=
| PReturn (v : value)
| PThrow (t : thrown)
| PLog (msg : string)
| PGetStepInfo
| PSeq (p q : prog)
| PTry (p handler : prog)
| PCall (name : string) (description : option string) (fnStr : string)
        (args : list value) (stack : option string) (body : prog).
  (** [await this.name(...args)], [name] decorated with [@step(description)] *)

Section Eval.

Variable ctorName : string.

Fixpoint eval (p : prog) (w : world) : world * completion :=
  match p with
  | PReturn v => (w, Normal (RValue v))
  | PThrow t => (w, Abrupt t)
  | PLog m => ({| slot := slot w; trace := EvLog m :: trace w; next_id := next_id w |},
               Normal (RValue VUndefined))
  | PGetStepInfo => getStepInfo w
  | PSeq p q =>
      let (w1, c) := eval p w in
      match c with Normal _ => eval q w1 | Abrupt t => (w1, Abrupt t) end
  | PTry p h =>
      let (w1, c) := eval p w in
      match c with Normal v => (w1, Normal v) | Abrupt _ => eval h w1 end
  | PCall name d fnStr args st body =>
      let (w1, r) := replacementMethod ctorName name d fnStr args st (eval body) w in
      match r with SyncThrow t => (w1, Abrupt t) | Returned c => (w1, c) end
  end.

End Eval.

End Wrapper.

Import Wrapper.

(* ------------------------------------------------------------------ *)
(** ** The spec's readings of the template syntax and of the signature *)

Module SpecReading.

(** Named placeholders as the spec writes them: two [{], a greedy captured
    run of [[^}]], two [}]. *)
Definition spec_named_re : regex :=
  [Lit "{"; Lit "{"; Rep (NotChar "}") 0 true true; Lit "}"; Lit "}"].

Definition spec_named_placeholders (template : string) : list string :=
  map capture1 (match_all spec_named_re template).

Definition is_open_bracket (c : ascii) : bool :=
  char_eqb c "(" || char_eqb c "[" || char_eqb c "{".

Definition is_close_bracket (c : ascii) : bool :=
  char_eqb c ")" || char_eqb c "]" || char_eqb c "}".

Fixpoint after_first_paren (s : string) : option string :=
  match s with
  | EmptyString => None
  | String c s' => if char_eqb c "(" then Some s' else after_first_paren s'
  end.

(** The text up to the [)] matching an already opened [(], cut at the commas
    outside any bracket; [None] when the parenthesis is never closed. *)
Fixpoint top_level_segments (depth : nat) (cur : string) (s : string)
  : option (list string) :=
  match s with
  | EmptyString => None
  | String c s' =>
      if is_open_bracket c then top_level_segments (S depth) (cur ++ String c "") s'
      else if is_close_bracket c then
        match depth with
        | O => Some [cur]
        | S d => top_level_segments d (cur ++ String c "") s'
        end
      else if char_eqb c "," && Nat.eqb depth 0 then
        option_map (cons cur) (top_level_segments depth "" s')
      else top_level_segments depth (cur ++ String c "") s'
  end.

(** Parameter names as the spec describes them: the text between the first
    [(] and its matching [)], split on top-level commas, trimmed, empty
    entries removed. *)
Definition spec_param_names (fnStr : string) : list string :=
  match after_first_paren fnStr with
  | None => []
  | Some rest =>
      match top_level_segments 0 "" rest with
      | None => []
      | Some segs => filter (fun p => negb (Nat.eqb (String.length p) 0)) (map trim segs)
      end
  end.

(** A stack line the locator passes over: it does not parse as a location,
    or its file is one of the ignored ones. *)
Definition frame_rejected (line : string) : bool :=
  match parse_frame line with
  | None => true
  | Some (file, _, _) => is_ignored file
  end.

(** Every character of [s] satisfies [p]. *)
Fixpoint all_chars (p : ascii -> bool) (s : string) : bool :=
  match s with
  | EmptyString => true
  | String c s' => p c && all_chars p s'
  end.

Definition not_char (c : ascii) : ascii -> bool := fun d => negb (char_eqb d c).

(** The placeholders [findMissingParams] looks at. *)
Definition named_placeholders (description : string) : list string :=
  filter (fun ph => negb (starts_with "[[" ph)) (curly_matches description).

End SpecReading.

Import SpecReading.

(* ================================================================== *)
(** * Properties *)

(* ------------------------------------------------------------------ *)
(** ** String lemmas *)

Lemma sdrop_app : forall a b, sdrop (String.length a) (a ++ b) = b.
Proof. induction a; simpl; auto. Qed.

Lemma stake_app : forall a b, stake (String.length a) (a ++ b) = a.
Proof. induction a; simpl; intros; [reflexivity | now rewrite IHa]. Qed.

Lemma length_app : forall a b, String.length (a ++ b) = String.length a + String.length b.
Proof. induction a; simpl; auto. Qed.

Lemma starts_with_app : forall p s, starts_with p (p ++ s) = true.
Proof.
  induction p; simpl; intros; auto.
  unfold char_eqb; destruct (ascii_dec a a); [simpl; auto | congruence].
Qed.

Lemma split_no_sep : forall sep s, includes s (String sep EmptyString) = false -> split sep s = [s].
Proof.
  intros sep s; induction s as [|c s IH]; intros H; [reflexivity|].
  unfold includes in H; simpl in H.
  unfold char_eqb in *; destruct (ascii_dec sep c) as [->|Hne]; simpl in H.
  - discriminate.
  - destruct (index_of (String sep EmptyString) s) eqn:E; simpl in H; [discriminate|].
    simpl. rewrite IH by (unfold includes; now rewrite E).
    unfold char_eqb; destruct (ascii_dec c sep); [congruence | reflexivity].
Qed.

Lemma slice_2_m2_wrap : forall p, slice_2_m2 ("[[" ++ p ++ "]]") = p.
Proof.
  intros p. unfold slice_2_m2.
  change (sdrop 2 ("[[" ++ p ++ "]]")) with (p ++ "]]").
  replace (String.length ("[[" ++ p ++ "]]") - 4) with (String.length p)
    by (simpl; rewrite length_app; simpl; lia).
  apply stake_app.
Qed.

Lemma ends_with_wrap : forall p, ends_with "]]" ("[[" ++ p ++ "]]") = true.
Proof.
  intros p. unfold ends_with.
  replace (String.length ("[[" ++ p ++ "]]") - String.length "]]")
    with (S (S (String.length p))) by (simpl; rewrite length_app; simpl; lia).
  change (sdrop (S (S (String.length p))) ("[[" ++ p ++ "]]"))
    with (sdrop (String.length p) (p ++ "]]")).
  rewrite sdrop_app. reflexivity.
Qed.

(* ------------------------------------------------------------------ *)
(** ** The formatting loop *)

Lemma format_loop_app : forall m params args l1 l2 r,
  format_loop m params args (l1 ++ l2) r =
    match format_loop m params args l1 r with
    | inl e => inl e
    | inr r' => format_loop m params args l2 r'
    end.
Proof.
  induction l1 as [|ph l1 IH]; intros; simpl; [reflexivity|].
  destruct (format_placeholder m params args r ph); [reflexivity | apply IH].
Qed.

(** A positional placeholder [[[d]]] with [parseInt(d)] in range is
    substituted; out of range it fails with that index. *)
Lemma format_placeholder_positional : forall m params args r d z,
  parse_int d = Fin z ->
  format_placeholder m params args r ("[[" ++ d ++ "]]") =
    if (z <? 0)%Z || (Z.of_nat (List.length args) <=? z)%Z
    then inl (FormatError (IndexOutOfBounds m (Fin z) (List.length args)))
    else match js_String (JV (arg_at args (Z.to_nat z))) with
         | inl x => inl (ConversionError x)
         | inr s => inr (replace r ("[[" ++ number_to_string (Fin z) ++ "]]") s)
         end.
Proof.
  intros. unfold format_placeholder.
  rewrite ends_with_wrap, slice_2_m2_wrap, H. reflexivity.
Qed.

(* ------------------------------------------------------------------ *)
(** ** C1: formatting errors are thrown before anything runs *)

(** C1: when the description of a call cannot be formatted (a missing
    parameter, an out-of-bounds index or a missing property), the call
    throws that error synchronously: the step reporter is never invoked (no
    event), the original method never runs (the outcome does not depend on
    [target]), the step context is untouched, and the error thrown is the
    formatter's error itself. *)
Theorem format_failure_throws_before_step :
  forall ctorName name description fnStr args stack target w (e : step_error),
    step_description (ctorName ++ "." ++ name) description fnStr args = inl (FormatError e) ->
    replacementMethod ctorName name description fnStr args stack target w =
      ({| slot := slot w; trace := trace w; next_id := S (next_id w) |},
       SyncThrow (ThrowError {| err_id := next_id w; err_name := "Error";
                                err_message := error_message e;
                                err_stack := Some ("Error: " ++ error_message e) |})).
Proof.
  intros * H. unfold replacementMethod. rewrite H. reflexivity.
Qed.

Definition w0 : world := {| slot := None; trace := []; next_id := 0 |}.

Lemma format_failure_throws_before_step_witness :
  step_description ("Page" ++ "." ++ "open") (Some "Open [[2]]") "open(url) {}" [VStr "/"]
    = inl (FormatError (IndexOutOfBounds "Page.open" (Fin 2%Z) 1)) /\
  replacementMethod "Page" "open" (Some "Open [[2]]") "open(url) {}" [VStr "/"] None
    (eval "Page" (PLog "body ran")) w0 =
    ({| slot := None; trace := []; next_id := 1 |},
     SyncThrow (ThrowError {| err_id := 0; err_name := "Error";
        err_message := error_message (IndexOutOfBounds "Page.open" (Fin 2%Z) 1);
        err_stack := Some ("Error: " ++ error_message (IndexOutOfBounds "Page.open" (Fin 2%Z) 1)) |})).
Proof.
  split; [reflexivity|].
  apply (format_failure_throws_before_step "Page" "open" (Some "Open [[2]]") "open(url) {}"
           [VStr "/"] None (eval "Page" (PLog "body ran")) w0
           (IndexOutOfBounds "Page.open" (Fin 2%Z) 1)).
  reflexivity.
Defined.

(* ------------------------------------------------------------------ *)
(** ** C5: the step context does not outlive the call *)

(** A call that reaches [test.step] leaves [this[StepSymbol]] deleted, from
    any state (also nested in another call); a call whose formatting fails
    leaves it as it was. *)
Lemma replacementMethod_slot : forall c n d f a st target w,
  slot (fst (replacementMethod c n d f a st target w)) =
    match step_description (c ++ "." ++ n) d f a with
    | inl _ => slot w
    | inr _ => None
    end.
Proof.
  intros. unfold replacementMethod.
  destruct (step_description (c ++ "." ++ n) d f a) as [e|];
    [destruct e as [e|[msg|v]]; reflexivity|].
  unfold test_step. simpl.
  destruct (target _) as [w2 c2]. reflexivity.
Qed.

Lemma eval_keeps_slot_empty : forall ctorName p w,
  slot w = None -> slot (fst (eval ctorName p w)) = None.
Proof.
  intros ctorName p. induction p; intros w H; simpl; auto.
  - unfold getStepInfo. rewrite H. simpl. exact H.
  - destruct (eval ctorName p1 w) as [w1 c] eqn:E.
    specialize (IHp1 w H). rewrite E in IHp1. simpl in IHp1.
    destruct c; [apply IHp2; exact IHp1 | exact IHp1].
  - destruct (eval ctorName p1 w) as [w1 c] eqn:E.
    specialize (IHp1 w H). rewrite E in IHp1. simpl in IHp1.
    destruct c; [exact IHp1 | apply IHp2; exact IHp1].
  - pose proof (replacementMethod_slot ctorName name description fnStr args stack
                  (eval ctorName p) w) as Hs.
    destruct (replacementMethod ctorName name description fnStr args stack (eval ctorName p) w)
      as [w1 r] eqn:E.
    simpl in Hs.
    assert (slot w1 = None) as H1
      by (rewrite Hs; destruct (step_description _ _ _ _); auto).
    destruct r; exact H1.
Qed.

(** C5: outside any decorated call ([this[StepSymbol]] absent), running any
    code, including decorated calls that return or throw, leaves no step
    context behind: a following [getStepInfo(this)] throws the
    "No Playwright step context found" error. *)
Theorem getStepInfo_fails_after_calls : forall ctorName p w,
  slot w = None ->
  exists e, snd (getStepInfo (fst (eval ctorName p w))) = Abrupt (ThrowError e) /\
            err_message e = no_step_context_message.
Proof.
  intros ctorName p w H.
  pose proof (eval_keeps_slot_empty ctorName p w H) as Hs.
  unfold getStepInfo. rewrite Hs. simpl.
  eexists; split; reflexivity.
Qed.

Definition boom : js_error :=
  {| err_id := 100; err_name := "Error"; err_message := "boom"; err_stack := Some "Error: boom" |}.

Lemma getStepInfo_fails_after_calls_witness :
  slot w0 = None /\
  exists e, snd (getStepInfo (fst (eval "Page"
      (PTry (PCall "open" (Some "Open {{url}}") "open(url) {}" [VStr "/"] None
               (PSeq PGetStepInfo (PThrow (ThrowError boom)))) (PReturn VUndefined)) w0)))
    = Abrupt (ThrowError e) /\ err_message e = no_step_context_message.
Proof.
  split; [reflexivity|].
  apply (getStepInfo_fails_after_calls "Page"
    (PTry (PCall "open" (Some "Open {{url}}") "open(url) {}" [VStr "/"] None
             (PSeq PGetStepInfo (PThrow (ThrowError boom)))) (PReturn VUndefined)) w0).
  reflexivity.
Defined.

(* ------------------------------------------------------------------ *)
(** ** C6: errors of the original method *)

(** X12: when the original method throws, the call's
    promise rejects with the very same thrown value: a non-[Error] value
    unchanged; an [Error] with the same identity, name and message, whose
    non-empty stack is replaced by its lines that do not contain
    "playwright-step-decorator". *)
Theorem wrapped_error_rethrown : forall ctorName name d fnStr args st target w formatted w2 t,
  step_description (ctorName ++ "." ++ name) d fnStr args = inr formatted ->
  target {| slot := Some (next_id w);
            trace := EvStep formatted (captureCallSiteLocation st) :: trace w;
            next_id := S (next_id w) |} = (w2, Abrupt t) ->
  exists t',
    replacementMethod ctorName name d fnStr args st target w
      = (set_slot w2 None, Returned (Abrupt t')) /\
    match t with
    | ThrowValue v => t' = ThrowValue v
    | ThrowError e =>
        exists e', t' = ThrowError e' /\ err_id e' = err_id e /\ err_name e' = err_name e /\
          err_message e' = err_message e /\
          err_stack e' =
            match err_stack e with
            | Some EmptyString => Some EmptyString
            | Some s => Some (join (String "010" EmptyString)
                               (filter (fun line => negb (includes line "playwright-step-decorator"))
                                  (split "010" s)))
            | None => None
            end
    end.
Proof.
  intros * Hd Ht. unfold replacementMethod. rewrite Hd. unfold test_step.
  change (set_slot {| slot := slot w;
                      trace := EvStep formatted (captureCallSiteLocation st) :: trace w;
                      next_id := S (next_id w) |} (Some (next_id w)))
    with {| slot := Some (next_id w);
            trace := EvStep formatted (captureCallSiteLocation st) :: trace w;
            next_id := S (next_id w) |}.
  rewrite Ht.
  eexists; split; [reflexivity|].
  destruct t as [e|v]; simpl; [|reflexivity].
  destruct (err_stack e) as [s|] eqn:Es.
  - destruct s as [|c s'].
    + exists e. simpl. rewrite Es. repeat split; reflexivity.
    + eexists; repeat split; reflexivity.
  - exists e. rewrite Es. repeat split; reflexivity.
Qed.

Definition user_frame : string :=
  "    at userStep (/home/u/proj/tests/playwright-step-decorator.test.ts:12:5)".

Definition user_error : js_error :=
  {| err_id := 7; err_name := "TypeError"; err_message := "boom";
     err_stack := Some ("TypeError: boom" ++ String "010" user_frame) |}.

Lemma wrapped_error_rethrown_witness :
  step_description ("Page" ++ "." ++ "open") (Some "Open") "open() {}" [] = inr "Open" /\
  eval "Page" (PThrow (ThrowError user_error))
    {| slot := Some 0; trace := [EvStep "Open" None]; next_id := 1 |}
    = ({| slot := Some 0; trace := [EvStep "Open" None]; next_id := 1 |},
       Abrupt (ThrowError user_error)) /\
  exists t',
    replacementMethod "Page" "open" (Some "Open") "open() {}" [] None
      (eval "Page" (PThrow (ThrowError user_error))) w0
      = (set_slot {| slot := Some 0; trace := [EvStep "Open" None]; next_id := 1 |} None,
         Returned (Abrupt t')) /\
    exists e', t' = ThrowError e' /\ err_id e' = 7 /\ err_name e' = "TypeError" /\
      err_message e' = "boom" /\ err_stack e' = Some "TypeError: boom".
Proof.
  split; [reflexivity|]. split; [reflexivity|].
  destruct (wrapped_error_rethrown "Page" "open" (Some "Open") "open() {}" [] None
              (eval "Page" (PThrow (ThrowError user_error))) w0 "Open"
              {| slot := Some 0; trace := [EvStep "Open" None]; next_id := 1 |}
              (ThrowError user_error) eq_refl eq_refl) as [t' [H1 H2]].
  exists t'. split; [exact H1|].
  destruct H2 as [e' [He [Hi [Hn [Hm Hs]]]]].
  exists e'. rewrite He, Hi, Hn, Hm, Hs. repeat split; reflexivity.
Defined.

(** C6 as stated fails: the filter also drops a frame of the user's own test
    file, one the call-site locator itself classifies as user code. *)
Lemma wrapped_error_loses_user_frame :
  replacementMethod "Page" "open" (Some "Open") "open() {}" [] None
    (eval "Page" (PThrow (ThrowError user_error))) w0
  = ({| slot := None; trace := [EvStep "Open" None]; next_id := 1 |},
     Returned (Abrupt (ThrowError {| err_id := 7; err_name := "TypeError"; err_message := "boom";
                                    err_stack := Some "TypeError: boom" |}))) /\
  parse_frame user_frame
    = Some ("/home/u/proj/tests/playwright-step-decorator.test.ts", "12", "5") /\
  is_ignored "/home/u/proj/tests/playwright-step-decorator.test.ts" = false.
Proof. vm_compute. repeat split; reflexivity. Qed.

(* ------------------------------------------------------------------ *)
(** ** C10: a declared parameter without argument renders "undefined" *)

(** C10: a dotless named placeholder whose name is a declared parameter at
    an index ([indexOf]) at or past the end of the argument list never makes
    formatting fail: its iteration replaces ["{{name}}"] by ["undefined"],
    and the loop goes on; failures can only come from the other
    placeholders. *)
Theorem dotless_missing_argument_renders_undefined :
  forall methodName paramNames args ph i l1 l2 r,
    includes ph "." = false ->
    (starts_with "[[" ph && ends_with "]]" ph) = false ->
    list_index_of ph paramNames = Some i ->
    List.length args <= i ->
    format_loop methodName paramNames args (l1 ++ ph :: l2) r =
      match format_loop methodName paramNames args l1 r with
      | inl e => inl e
      | inr r' => format_loop methodName paramNames args l2
                    (replace r' ("{{" ++ ph ++ "}}") "undefined")
      end.
Proof.
  intros * Hdot Hpos Hidx Hlen.
  rewrite format_loop_app.
  destruct (format_loop methodName paramNames args l1 r) as [e|r']; [reflexivity|].
  simpl. unfold format_placeholder, resolve_named. rewrite Hpos.
  rewrite (split_no_sep "." ph Hdot). simpl. rewrite Hidx.
  unfold arg_at. rewrite nth_overflow by exact Hlen. reflexivity.
Qed.

Lemma dotless_missing_argument_renders_undefined_witness :
  format_loop "Page.fill" ["field"; "text"] [VStr "name"] (["field"] ++ "text" :: [])
    "Fill {{field}} with {{text}}" = inr "Fill name with undefined".
Proof.
  rewrite (dotless_missing_argument_renders_undefined "Page.fill" ["field"; "text"]
             [VStr "name"] "text" 1 ["field"] [] "Fill {{field}} with {{text}}");
    reflexivity.
Defined.

(* ------------------------------------------------------------------ *)
(** ** C4: the call-site locator *)

Lemma scan_frames_some : forall lines loc,
  scan_frames lines = Some loc <->
  exists pre line post file lineNum col,
    lines = (pre ++ line :: post)%list /\ forallb frame_rejected pre = true /\
    parse_frame line = Some (file, lineNum, col) /\ is_ignored file = false /\
    loc = {| loc_file := file; loc_line := parse_int lineNum; loc_column := parse_int col |}.
Proof.
  induction lines as [|l ls IH]; intros loc; simpl; split.
  - discriminate.
  - intros (pre & line & post & _ & _ & _ & Hl & _). destruct pre; discriminate.
  - destruct (parse_frame l) as [[[f ln] c]|] eqn:Hp.
    + destruct (is_ignored f) eqn:Hi; simpl.
      * intros H. apply IH in H.
        destruct H as (pre & line & post & file & lineNum & col & -> & Hpre & H).
        exists (l :: pre), line, post, file, lineNum, col. simpl.
        unfold frame_rejected at 1. rewrite Hp, Hi. auto.
      * intros H. inversion H. exists [], l, ls, f, ln, c. simpl. auto.
    + intros H. apply IH in H.
      destruct H as (pre & line & post & file & lineNum & col & -> & Hpre & H).
      exists (l :: pre), line, post, file, lineNum, col. simpl.
      unfold frame_rejected at 1. rewrite Hp. auto.
  - intros (pre & line & post & file & lineNum & col & Hl & Hpre & Hp & Hi & ->).
    destruct pre as [|l' pre]; simpl in Hl; inversion Hl; subst.
    + rewrite Hp, Hi. reflexivity.
    + simpl in Hpre. apply andb_prop in Hpre as [Hr Hpre].
      unfold frame_rejected in Hr.
      assert (scan_frames (pre ++ line :: post) =
              Some {| loc_file := file; loc_line := parse_int lineNum; loc_column := parse_int col |})
        as Hrec by (apply IH; exists pre, line, post, file, lineNum, col; auto).
      destruct (parse_frame l') as [[[f ln] c]|]; [rewrite Hr; simpl|]; exact Hrec.
Qed.

Lemma scan_frames_none : forall lines,
  scan_frames lines = None <-> forallb frame_rejected lines = true.
Proof.
  induction lines as [|l ls IH]; simpl; [tauto|].
  unfold frame_rejected at 1.
  destruct (parse_frame l) as [[[f ln] c]|]; [destruct (is_ignored f)|]; simpl;
    first [exact IH | split; discriminate].
Qed.

(** C4: for a captured stack, the locator skips its first three lines (the
    [Error] header, [captureCallSiteLocation], [replacementMethod]) and
    returns file, line and column of the first later line that parses as a
    location whose file contains no ignored fragment; when every later line
    is unparseable or ignored it returns [undefined] (it has no error
    outcome). *)
Theorem locate_first_unignored_frame : forall s,
  s <> EmptyString ->
  (forall loc,
     captureCallSiteLocation (Some s) = Some loc <->
     exists pre line post file lineNum col,
       skipn 3 (split "010" s) = (pre ++ line :: post)%list /\ forallb frame_rejected pre = true /\
       parse_frame line = Some (file, lineNum, col) /\ is_ignored file = false /\
       loc = {| loc_file := file; loc_line := parse_int lineNum; loc_column := parse_int col |}) /\
  (captureCallSiteLocation (Some s) = None <->
   forallb frame_rejected (skipn 3 (split "010" s)) = true).
Proof.
  intros s Hs.
  assert (captureCallSiteLocation (Some s) = scan_frames (skipn 3 (split "010" s))) as E
    by (destruct s; [congruence | reflexivity]).
  rewrite E. split; [intros loc; apply scan_frames_some | apply scan_frames_none].
Qed.

Definition sample_stack : string :=
  "Error" ++ String "010"
  "    at captureCallSiteLocation (/p/src/playwright-step-decorator.ts:110:17)" ++ String "010"
  "    at LoginPage.login (/p/src/playwright-step-decorator.ts:59:22)" ++ String "010"
  "    at /p/node_modules/@playwright/test/lib/worker.js:1:2" ++ String "010"
  "    at Object.<anonymous> (/p/tests/login.spec.ts:10:5)".

Lemma locate_first_unignored_frame_witness :
  sample_stack <> EmptyString /\
  captureCallSiteLocation (Some sample_stack) =
    Some {| loc_file := "/p/tests/login.spec.ts"; loc_line := Fin 10%Z; loc_column := Fin 5%Z |}.
Proof.
  split; [discriminate|].
  apply (proj1 (locate_first_unignored_frame sample_stack ltac:(discriminate))).
  exists ["    at /p/node_modules/@playwright/test/lib/worker.js:1:2"],
         "    at Object.<anonymous> (/p/tests/login.spec.ts:10:5)", [],
         "/p/tests/login.spec.ts", "10", "5".
  vm_compute. repeat split; reflexivity.
Defined.

(* ------------------------------------------------------------------ *)
(** ** C2: out-of-bounds positional placeholders *)

(** C2 as stated fails: with two out-of-bounds placeholders [[[1]]] and
    [[[2]]] and no argument, the error reports index 1 only, never 2. *)
Lemma out_of_bounds_reports_first_index_only :
  step_description "Page.click" (Some "Click [[1]] then [[2]]") "click() {}" []
    = inl (FormatError (IndexOutOfBounds "Page.click" (Fin 1%Z) 0)) /\
  includes (error_message (IndexOutOfBounds "Page.click" (Fin 1%Z) 0)) "2" = false.
Proof. split; vm_compute; reflexivity. Qed.

Lemma square_wrap_not_named : forall l,
  filter (fun ph => negb (starts_with "[[" ph)) (map (fun d => "[[" ++ d ++ "]]") l) = [].
Proof. induction l; simpl; auto. Qed.

Lemma findMissingParams_named : forall d params,
  findMissingParams (getPlaceholders d) params =
  filter (fun param => negb (mem param params)) (map root (named_placeholders d)).
Proof.
  intros. unfold findMissingParams, getPlaceholders, named_placeholders.
  rewrite filter_app, square_wrap_not_named, app_nil_r. reflexivity.
Qed.

(** A positional placeholder whose index is in range and whose argument
    converts. *)
Definition converts_in_range (args : list value) (p : string) : Prop :=
  exists zp s, parse_int p = Fin zp /\ (0 <= zp < Z.of_nat (List.length args))%Z /\
               js_String (JV (arg_at args (Z.to_nat zp))) = inr s.

Lemma format_placeholder_positional_out : forall m params args r d,
  (forall z, parse_int d = Fin z -> (Z.of_nat (List.length args) <= z)%Z) ->
  format_placeholder m params args r ("[[" ++ d ++ "]]") =
    inl (FormatError (IndexOutOfBounds m (parse_int d) (List.length args))).
Proof.
  intros m params args r d H. unfold format_placeholder.
  rewrite ends_with_wrap, slice_2_m2_wrap. simpl.
  destruct (parse_int d) as [|b|z] eqn:E; try reflexivity.
  specialize (H z eq_refl).
  replace ((Z.of_nat (List.length args) <=? z)%Z) with true by lia.
  rewrite orb_true_r. reflexivity.
Qed.

Lemma positional_loop_first_out_of_bounds : forall m params args pre dig post r,
  Forall (converts_in_range args) pre ->
  (forall z, parse_int dig = Fin z -> (Z.of_nat (List.length args) <= z)%Z) ->
  format_loop m params args (map (fun d => "[[" ++ d ++ "]]") (pre ++ dig :: post)) r
    = inl (FormatError (IndexOutOfBounds m (parse_int dig) (List.length args))).
Proof.
  induction pre as [|p pre IH]; intros dig post r Hpre Hd; cbn [map app format_loop].
  - rewrite (format_placeholder_positional_out m params args r dig Hd). reflexivity.
  - inversion Hpre as [|? ? [zp [sp [Hp [Hr Hs]]]] Hrest]; subst.
    rewrite (format_placeholder_positional m params args r p zp Hp).
    replace ((zp <? 0)%Z) with false by lia.
    replace ((Z.of_nat (List.length args) <=? zp)%Z) with false by lia.
    cbn [orb]. rewrite Hs. apply IH; assumption.
Qed.

(** C2 (as the code does it): when the named placeholders pass the
    missing-parameter check and all resolve and convert, formatting fails
    with the out-of-bounds error of the first positional placeholder, in
    template order, whose [parseInt] value (a double: [Infinity] for very
    long digit runs) is not below the argument count, provided the earlier
    positional placeholders are in range and their arguments convert with
    [String]; the error carries that value and the argument count. *)
Theorem first_out_of_bounds_index_reported :
  forall methodName d fnStr args r pre dig post,
    d <> EmptyString ->
    findMissingParams (getPlaceholders d) (extractFunctionParamNames fnStr) = [] ->
    format_loop methodName (extractFunctionParamNames fnStr) args (curly_matches d) d = inr r ->
    square_matches d = (pre ++ dig :: post)%list ->
    Forall (converts_in_range args) pre ->
    (forall z, parse_int dig = Fin z -> (Z.of_nat (List.length args) <= z)%Z) ->
    step_description methodName (Some d) fnStr args
      = inl (FormatError (IndexOutOfBounds methodName (parse_int dig) (List.length args))).
Proof.
  intros * Hne Hmiss Hnamed Hsq Hpre Hd.
  unfold step_description.
  destruct d as [|c d']; [congruence|].
  rewrite Hmiss. unfold formatDescription, getPlaceholders.
  rewrite format_loop_app, Hnamed, Hsq.
  apply positional_loop_first_out_of_bounds; assumption.
Qed.

Lemma first_out_of_bounds_index_reported_witness :
  step_description "Page.pick" (Some "Pick {{item}} [[0]] [[3]] [[5]]") "pick(item) {}" [VStr "a"]
    = inl (FormatError (IndexOutOfBounds "Page.pick" (Fin 3%Z) 1)).
Proof.
  change (Fin 3%Z) with (parse_int "3").
  apply (first_out_of_bounds_index_reported "Page.pick" "Pick {{item}} [[0]] [[3]] [[5]]"
           "pick(item) {}" [VStr "a"] "Pick a [[0]] [[3]] [[5]]" ["0"] "3" ["5"]).
  - discriminate.
  - vm_compute. reflexivity.
  - vm_compute. reflexivity.
  - vm_compute. reflexivity.
  - constructor; [|constructor]. exists 0%Z, "a". split; [reflexivity|]. split; [simpl; lia|].
    reflexivity.
  - intros z Hz. vm_compute in Hz. injection Hz as <-. simpl. lia.
Defined.

(* ------------------------------------------------------------------ *)
(** ** C3: the missing-parameter error *)

(** C3 as stated fails: a root missing twice is listed twice. *)
Lemma missing_parameter_listed_twice :
  step_description "Page.fill" (Some "Fill {{x}} and {{x}}") "fill(a) {}" [VNum 1]
    = inl (FormatError (MissingParameters "Page.fill" ["x"; "x"])) /\
  error_message (MissingParameters "Page.fill" ["x"; "x"]) =
    "Missing function parameters (x, x) in method 'Page.fill'. Please check your @step decorator placeholders.".
Proof. split; vm_compute; reflexivity. Qed.

(** C3 (as the code does it): when some [{{...}}] placeholder not starting
    with "[[" has a root absent from the parameter names, formatting fails,
    with no substitution, with the missing-parameters error listing the
    missing root of every such placeholder occurrence in template order: a
    root is listed as many times as it occurs, and only missing roots are
    listed. *)
Theorem missing_roots_listed_per_occurrence : forall methodName d fnStr args,
  d <> EmptyString ->
  let params := extractFunctionParamNames fnStr in
  let roots := map root (named_placeholders d) in
  let missing := filter (fun r => negb (mem r params)) roots in
  missing <> [] ->
  step_description methodName (Some d) fnStr args = inl (FormatError (MissingParameters methodName missing)) /\
  (forall x, count_occ string_dec missing x =
             if mem x params then 0 else count_occ string_dec roots x).
Proof.
  intros methodName d fnStr args Hne params roots missing Hm.
  split.
  - unfold step_description.
    destruct d as [|c d']; [congruence|].
    fold params. rewrite findMissingParams_named. fold roots. fold missing.
    destruct missing as [|x xs]; [congruence | reflexivity].
  - intros x. unfold missing. clear Hm missing.
    induction roots as [|y ys IH]; simpl; [destruct (mem x params); reflexivity|].
    destruct (mem y params) eqn:Hy; simpl.
    + rewrite IH. destruct (string_dec y x) as [->|]; [rewrite Hy|]; reflexivity.
    + destruct (string_dec y x) as [->|Hxy]; simpl.
      * rewrite Hy. simpl. rewrite IH, Hy. destruct (string_dec x x); [reflexivity|congruence].
      * rewrite IH. reflexivity.
Qed.

Lemma missing_roots_listed_per_occurrence_witness :
  step_description "Page.fill" (Some "Fill {{x}} {{a.b}} {{x.y}} {{z}}") "fill(a) {}" [VNum 1]
    = inl (FormatError (MissingParameters "Page.fill" ["x"; "x"; "z"])).
Proof.
  apply (missing_roots_listed_per_occurrence "Page.fill" "Fill {{x}} {{a.b}} {{x.y}} {{z}}"
           "fill(a) {}" [VNum 1]); [discriminate | vm_compute; discriminate].
Defined.

(* ------------------------------------------------------------------ *)
(** ** The regex matcher *)

Lemma first_some_in : forall (A B : Type) (f : A -> option B) l y,
  first_some f l = Some y -> exists x, In x l /\ f x = Some y.
Proof.
  induction l as [|x xs IH]; simpl; intros y H; [discriminate|].
  destruct (f x) eqn:E.
  - inversion H; subst. eauto.
  - destruct (IH y H) as [x' [Hin Hf]]. eauto.
Qed.

Lemma first_some_none : forall (A B : Type) (f : A -> option B) l,
  (forall x, In x l -> f x = None) -> first_some f l = None.
Proof.
  induction l as [|x xs IH]; simpl; intros H; [reflexivity|].
  rewrite H by auto. apply IH. auto.
Qed.

(** The first success of a lazy repetition, and the counts tried before. *)
Lemma first_some_seq : forall (A : Type) (f : nat -> option A) k a y,
  first_some f (seq a k) = Some y ->
  exists n, a <= n < a + k /\ f n = Some y /\ forall m, a <= m < n -> f m = None.
Proof.
  induction k as [|k IH]; intros a y H; simpl in H; [discriminate|].
  destruct (f a) eqn:E.
  - inversion H; subst. exists a. split; [lia|]. split; [exact E | intros; lia].
  - destruct (IH (S a) y H) as [n [Hr [Hf Hm]]].
    exists n. split; [lia|]. split; [exact Hf|].
    intros m Hm'. destruct (Nat.eq_dec m a) as [->|]; [exact E | apply Hm; lia].
Qed.

Lemma first_some_seq_at : forall (A : Type) (f : nat -> option A) k a j y,
  j < k -> (forall m, a <= m < a + j -> f m = None) -> f (a + j) = Some y ->
  first_some f (seq a k) = Some y.
Proof.
  induction k as [|k IH]; intros a j y Hj Hm Hf; [lia|]. simpl.
  destruct j as [|j].
  - rewrite Nat.add_0_r in Hf. rewrite Hf. reflexivity.
  - rewrite Hm by lia. apply (IH (S a) j); [lia | intros; apply Hm; lia |].
    replace (S a + j) with (a + S j) by lia. exact Hf.
Qed.

Lemma in_rep_candidates : forall mn run g n,
  In n (rep_candidates mn run g) -> mn <= n <= run.
Proof.
  unfold rep_candidates. intros mn run g n H.
  destruct g; [rewrite <- in_rev in H|]; apply in_seq in H; lia.
Qed.

Lemma run_length_le : forall k s, run_length k s <= String.length s.
Proof.
  induction s; simpl; [lia|]. destruct (class_matches k a); simpl; lia.
Qed.

Lemma stake_sdrop : forall n s, s = stake n s ++ sdrop n s.
Proof.
  induction n; intros s; [reflexivity|]. destruct s; simpl; [reflexivity|].
  f_equal. apply IHn.
Qed.

Lemma length_stake : forall n s, n <= String.length s -> String.length (stake n s) = n.
Proof.
  induction n; intros s H; [reflexivity|]. destruct s; simpl in *; [lia|].
  f_equal. apply IHn. lia.
Qed.

Lemma all_chars_stake_run : forall k s n,
  n <= run_length k s -> all_chars (class_matches k) (stake n s) = true.
Proof.
  intros k s; induction s as [|c s IH]; intros n H; destruct n; simpl in *; auto.
  destruct (class_matches k c); simpl in *; [apply IH; lia | lia].
Qed.

Lemma all_chars_app : forall p a b, all_chars p (a ++ b) = all_chars p a && all_chars p b.
Proof. induction a; simpl; intros; [reflexivity|]. rewrite IHa. apply andb_assoc. Qed.

Lemma sdrop_all_chars : forall p n s, all_chars p s = true -> all_chars p (sdrop n s) = true.
Proof.
  induction n; intros s H; [exact H|]. destruct s; simpl in *; [reflexivity|].
  apply andb_prop in H as [_ H]. auto.
Qed.

Lemma sdrop_app_le : forall n a b, n <= String.length a -> sdrop n (a ++ b) = sdrop n a ++ b.
Proof.
  induction n; intros a b H; [reflexivity|]. destruct a; simpl in *; [lia|]. apply IHn; lia.
Qed.

Lemma sdrop_app_ge : forall n a b,
  String.length a <= n -> sdrop n (a ++ b) = sdrop (n - String.length a) b.
Proof.
  induction n; intros a b H.
  - destruct a; simpl in *; [reflexivity | lia].
  - destruct a; simpl in *; [reflexivity|]. apply IHn; lia.
Qed.

Lemma starts_with_prefix : forall p x y, starts_with p x = true -> starts_with p (x ++ y) = true.
Proof.
  induction p; intros x y H; [reflexivity|]. destruct x; simpl in *; [discriminate|].
  apply andb_prop in H as [H1 H2]. rewrite H1. simpl. auto.
Qed.

Lemma index_of_none : forall p s,
  (forall m, m <= String.length s -> starts_with p (sdrop m s) = false) -> index_of p s = None.
Proof.
  intros p s; induction s as [|c s IH]; intros H; simpl.
  - pose proof (H 0 (le_n 0)) as H0. simpl in H0. rewrite H0. reflexivity.
  - pose proof (H 0 ltac:(simpl; lia)) as H0. simpl in H0. rewrite H0.
    rewrite IH; [reflexivity|].
    intros m Hm. apply (H (S m)). simpl. lia.
Qed.

Lemma index_of_eq : forall p s,
  index_of p s = if starts_with p s then Some 0
                 else match s with
                      | EmptyString => None
                      | String _ s' => option_map S (index_of p s')
                      end.
Proof. intros p s; destruct s; reflexivity. Qed.

Lemma includes_middle : forall a x b, includes (a ++ x ++ b) x = true.
Proof.
  unfold includes. induction a as [|c a IH]; intros x b; simpl.
  - rewrite index_of_eq, starts_with_app. reflexivity.
  - destruct (starts_with x (String c (a ++ x ++ b))); [reflexivity|].
    specialize (IH x b). destruct (index_of x (a ++ x ++ b)); [reflexivity | discriminate].
Qed.

Lemma append_assoc_s : forall a b c, (a ++ b) ++ c = a ++ b ++ c.
Proof. induction a; simpl; intros; [reflexivity | now rewrite IHa]. Qed.

Lemma append_nil_s : forall a, a ++ "" = a.
Proof. induction a; simpl; [reflexivity | now rewrite IHa]. Qed.

Lemma char_eqb_eq : forall a b, char_eqb a b = true -> a = b.
Proof. unfold char_eqb. intros a b. destruct (ascii_dec a b); congruence. Qed.

Lemma char_eqb_refl : forall a, char_eqb a a = true.
Proof. unfold char_eqb. intros a. destruct (ascii_dec a a); congruence. Qed.

Lemma starts_with_two : forall c1 c2 t,
  starts_with (String c1 (String c2 "")) t = true -> t = String c1 (String c2 (sdrop 2 t)).
Proof.
  intros c1 c2 t H.
  destruct t as [|y1 [|y2 t]]; simpl in H; [discriminate| |].
  - apply andb_prop in H as [_ H]. discriminate.
  - apply andb_prop in H as [H1 H]. apply andb_prop in H as [H2 _].
    apply char_eqb_eq in H1, H2. subst. reflexivity.
Qed.

Lemma match_here_lit_nil : forall c r b, match_here (Lit c :: r) b "" = None.
Proof. reflexivity. Qed.

Lemma match_here_lit_cons : forall c r b d s,
  match_here (Lit c :: r) b (String d s) = if char_eqb c d then match_here r false s else None.
Proof. reflexivity. Qed.

Lemma match_here_rep : forall k mn g cap r b s,
  match_here (Rep k mn g cap :: r) b s =
  first_some
    (fun n =>
       match match_here r (b && Nat.eqb n 0) (sdrop n s) with
       | Some (cs, rest) => Some (if cap then stake n s :: cs else cs, rest)
       | None => None
       end)
    (rep_candidates mn (run_length k s) g).
Proof. reflexivity. Qed.

Lemma match_two_lits : forall c1 c2 b s cs rest,
  match_here [Lit c1; Lit c2] b s = Some (cs, rest) ->
  cs = [] /\ s = String c1 (String c2 rest).
Proof.
  intros c1 c2 b s cs rest H.
  destruct s as [|x1 [|x2 s]]; simpl in H; unfold char_eqb in H;
    repeat match goal with
           | H : context [ascii_dec ?a ?b] |- _ => destruct (ascii_dec a b)
           end; subst; try discriminate.
  inversion H; subst. auto.
Qed.

Lemma match_two_lits_start : forall c1 c2 b rest,
  match_here [Lit c1; Lit c2] b (String c1 (String c2 rest)) = Some ([], rest).
Proof.
  intros. simpl. unfold char_eqb.
  destruct (ascii_dec c1 c1); [|congruence]. destruct (ascii_dec c2 c2); [|congruence].
  reflexivity.
Qed.

Lemma match_here_suffix : forall r b s cs rest,
  match_here r b s = Some (cs, rest) -> exists x, s = x ++ rest.
Proof.
  induction r as [|a r IH]; intros b s cs rest H; simpl in H.
  - inversion H; subst. exists "". reflexivity.
  - destruct a as [| |c|k mn g cap].
    + destruct b; [eapply IH; exact H | discriminate].
    + destruct s; [eapply IH; exact H | discriminate].
    + destruct s as [|d s]; [discriminate|].
      destruct (char_eqb c d); [|discriminate].
      destruct (IH _ _ _ _ H) as [x ->]. exists (String d x). reflexivity.
    + apply first_some_in in H as [n [_ Hn]].
      destruct (match_here r (b && Nat.eqb n 0) (sdrop n s)) as [[cs' rest']|] eqn:E;
        [|discriminate].
      inversion Hn; subst.
      destruct (IH _ _ _ _ E) as [x Hx].
      exists (stake n s ++ x). rewrite append_assoc_s, <- Hx. apply stake_sdrop.
Qed.

Lemma exec_from_spec : forall r b s from cs rest,
  exec_from r b s = Some (from, cs, rest) ->
  exists pre b', s = pre ++ from /\ match_here r b' from = Some (cs, rest).
Proof.
  intros r b s; revert b; induction s as [|c s IH]; intros b from cs rest H; simpl in H.
  - destruct (match_here r b "") as [[cs' rest']|] eqn:E; inversion H; subst.
    exists "", b. auto.
  - destruct (match_here r b (String c s)) as [[cs' rest']|] eqn:E.
    + inversion H; subst. exists "", b. auto.
    + destruct (IH false from cs rest H) as (pre & b' & Hs & Hm).
      exists (String c pre), b'. rewrite Hs. auto.
Qed.

Lemma match_all_fuel_spec : forall f r b s cs,
  In cs (match_all_fuel f r b s) ->
  exists pre from rest b', s = pre ++ from /\ match_here r b' from = Some (cs, rest).
Proof.
  induction f as [|f IH]; intros r b s cs H; simpl in H; [contradiction|].
  destruct (exec_from r b s) as [[[from cs'] rest]|] eqn:E; [|contradiction].
  destruct (exec_from_spec _ _ _ _ _ _ E) as (pre & b' & Hs & Hm).
  destruct (match_here_suffix _ _ _ _ _ Hm) as [x Hx].
  assert (forall l, In cs (cs' :: l) ->
            (forall c, In c l -> exists pre from rest b',
               s = pre ++ from /\ match_here r b' from = Some (c, rest)) ->
            exists pre from rest b', s = pre ++ from /\ match_here r b' from = Some (cs, rest))
    as Hcons.
  { intros l [<-|Hl] Hrec; [exists pre, from, rest, b'; auto | apply Hrec; exact Hl]. }
  destruct (Nat.eqb (String.length rest) (String.length from)).
  - destruct rest as [|d rest'].
    + destruct H as [<-|[]]. exists pre, from, "", b'. auto.
    + apply (Hcons _ H). intros c Hc.
      destruct (IH _ _ _ _ Hc) as (pre2 & from2 & rest2 & b2 & Hs2 & Hm2).
      exists (pre ++ x ++ String d pre2), from2, rest2, b2. split; [|exact Hm2].
      rewrite Hs, Hx, Hs2. rewrite !append_assoc_s. reflexivity.
  - apply (Hcons _ H). intros c Hc.
    destruct (IH _ _ _ _ Hc) as (pre2 & from2 & rest2 & b2 & Hs2 & Hm2).
    exists (pre ++ x ++ pre2), from2, rest2, b2. split; [|exact Hm2].
    rewrite Hs, Hx, Hs2. rewrite !append_assoc_s. reflexivity.
Qed.

(** A match of [\{\{(.*?)\}\}]: the capture has no line terminator and no
    shorter capture would have been followed by [}}]. *)
Lemma match_curly : forall b s cs rest,
  match_here curly_re b s = Some (cs, rest) ->
  exists c, cs = [c] /\ s = "{{" ++ c ++ "}}" ++ rest /\
    all_chars (fun x => negb (is_line_terminator x)) c = true /\
    (forall m, m < String.length c -> starts_with "}}" (sdrop m (c ++ "}}" ++ rest)) = false).
Proof.
  intros b s cs rest H.
  unfold curly_re in H.
  destruct s as [|x1 s]; [rewrite match_here_lit_nil in H; discriminate|].
  rewrite match_here_lit_cons in H.
  destruct (char_eqb "{" x1) eqn:E1; [|discriminate].
  destruct s as [|x2 s]; [rewrite match_here_lit_nil in H; discriminate|].
  rewrite match_here_lit_cons in H.
  destruct (char_eqb "{" x2) eqn:E2; [|discriminate].
  apply char_eqb_eq in E1, E2. subst x1 x2.
  rewrite match_here_rep in H.
  unfold rep_candidates in H. cbv beta iota zeta in H.
  apply first_some_seq in H as (n & Hr & Hn & Hmin).
  destruct (match_here [Lit "}"; Lit "}"] (false && Nat.eqb n 0) (sdrop n s))
    as [[cs' rest']|] eqn:E; [|discriminate].
  inversion Hn; subst. clear Hn.
  apply match_two_lits in E as [-> Hs].
  assert (n <= String.length s) as Hle by (pose proof (run_length_le DotChar s); lia).
  exists (stake n s). repeat split.
  - rewrite (stake_sdrop n s) at 1. rewrite Hs. reflexivity.
  - apply (all_chars_stake_run DotChar). lia.
  - intros m Hm. rewrite length_stake in Hm by exact Hle.
    specialize (Hmin m ltac:(lia)).
    assert (s = stake n s ++ "}}" ++ rest) as Hs' by (rewrite (stake_sdrop n s) at 1; now rewrite Hs).
    rewrite <- Hs'.
    destruct (starts_with "}}" (sdrop m s)) eqn:Hst; [|reflexivity].
    apply starts_with_two in Hst. cbv beta in Hmin. rewrite Hst in Hmin.
    rewrite match_two_lits_start in Hmin. discriminate.
Qed.

Lemma no_double_brace : forall c rest,
  (forall m, m < String.length c -> starts_with "}}" (sdrop m (c ++ "}}" ++ rest)) = false) ->
  includes (c ++ "}") "}}" = false.
Proof.
  intros c rest H. unfold includes. rewrite index_of_none; [reflexivity|].
  intros m Hm. rewrite length_app in Hm. simpl in Hm.
  destruct (Nat.lt_ge_cases m (String.length c)) as [Hlt|Hge].
  - specialize (H m Hlt).
    destruct (starts_with "}}" (sdrop m (c ++ "}"))) eqn:E; [|reflexivity].
    rewrite <- H.
    replace (c ++ "}}" ++ rest) with ((c ++ "}") ++ "}" ++ rest)
      by (rewrite !append_assoc_s; reflexivity).
    rewrite sdrop_app_le by (rewrite length_app; simpl; lia).
    symmetry. apply starts_with_prefix. exact E.
  - rewrite sdrop_app_ge by exact Hge.
    destruct (m - String.length c) as [|[|k]]; reflexivity.
Qed.

Lemma match_square : forall b s cs rest,
  match_here square_re b s = Some (cs, rest) ->
  exists c, cs = [c] /\ s = "[[" ++ c ++ "]]" ++ rest /\ c <> EmptyString /\
    all_chars is_digit c = true.
Proof.
  intros b s cs rest H.
  unfold square_re in H.
  destruct s as [|x1 s]; [rewrite match_here_lit_nil in H; discriminate|].
  rewrite match_here_lit_cons in H.
  destruct (char_eqb "[" x1) eqn:E1; [|discriminate].
  destruct s as [|x2 s]; [rewrite match_here_lit_nil in H; discriminate|].
  rewrite match_here_lit_cons in H.
  destruct (char_eqb "[" x2) eqn:E2; [|discriminate].
  apply char_eqb_eq in E1, E2. subst x1 x2.
  rewrite match_here_rep in H.
  apply first_some_in in H as (n & Hin & Hn).
  apply in_rep_candidates in Hin.
  destruct (match_here [Lit "]"; Lit "]"] (false && Nat.eqb n 0) (sdrop n s))
    as [[cs' rest']|] eqn:E; [|discriminate].
  inversion Hn; subst. clear Hn.
  apply match_two_lits in E as [-> Hs].
  assert (n <= String.length s) as Hle by (pose proof (run_length_le DigitChar s); lia).
  exists (stake n s). repeat split.
  - rewrite (stake_sdrop n s) at 1. rewrite Hs. reflexivity.
  - intros He. pose proof (length_stake n s Hle) as Hl. rewrite He in Hl. simpl in Hl. lia.
  - apply (all_chars_stake_run DigitChar). lia.
Qed.

Lemma in_match_all : forall r s cs,
  In cs (match_all r s) ->
  exists pre from rest b, s = pre ++ from /\ match_here r b from = Some (cs, rest).
Proof. intros. unfold match_all in H. eapply match_all_fuel_spec. exact H. Qed.

(* ------------------------------------------------------------------ *)
(** ** C8: the placeholder syntax *)

(** C8 as stated fails: the source's named pattern is the lazy [(.*?)], not
    the class of non-[}] characters; on ["{{a}b}}"] the source extracts ["a}b"], the spec's pattern
    nothing. *)
Lemma named_pattern_is_lazy_dot :
  getPlaceholders "{{a}b}}" = ["a}b"] /\ spec_named_placeholders "{{a}b}}" = [].
Proof. split; vm_compute; reflexivity. Qed.

(** C8 (as the code does it): the placeholders are the captures of
    [\{\{(.*?)\}\}] followed by the matches of [\[\[(\d+)\]\]]; a named
    capture occurs in the template between [{{] and [}}], has no line
    terminator, contains no [}}] and does not end in [}] (it may contain a
    single [}]); a positional capture is a non-empty run of decimal digits
    occurring in the template between [[[] and []]]. *)
Theorem placeholder_syntax : forall d,
  getPlaceholders d = app (curly_matches d) (map (fun x => "[[" ++ x ++ "]]") (square_matches d)) /\
  (forall ph, In ph (curly_matches d) ->
     includes d ("{{" ++ ph ++ "}}") = true /\
     all_chars (fun x => negb (is_line_terminator x)) ph = true /\
     includes (ph ++ "}") "}}" = false) /\
  (forall x, In x (square_matches d) ->
     includes d ("[[" ++ x ++ "]]") = true /\ x <> EmptyString /\ all_chars is_digit x = true).
Proof.
  intros d. split; [reflexivity|]. split.
  - intros ph Hin. unfold curly_matches in Hin. apply in_map_iff in Hin as [cs [<- Hin]].
    apply in_match_all in Hin as (pre & from & rest & b & Hd & Hm).
    apply match_curly in Hm as (c & -> & Hfrom & Hlt & Hmin).
    unfold capture1. simpl. repeat split.
    + rewrite Hd, Hfrom.
      replace ("{{" ++ c ++ "}}" ++ rest) with (("{{" ++ c ++ "}}") ++ rest)
        by (rewrite !append_assoc_s; reflexivity).
      apply includes_middle.
    + exact Hlt.
    + eapply no_double_brace. exact Hmin.
  - intros x Hin. unfold square_matches in Hin. apply in_map_iff in Hin as [cs [<- Hin]].
    apply in_match_all in Hin as (pre & from & rest & b & Hd & Hm).
    apply match_square in Hm as (c & -> & Hfrom & Hne & Hdig).
    unfold capture1. simpl. repeat split; [|exact Hne|exact Hdig].
    rewrite Hd, Hfrom.
    replace ("[[" ++ c ++ "]]" ++ rest) with (("[[" ++ c ++ "]]") ++ rest)
      by (rewrite !append_assoc_s; reflexivity).
    apply includes_middle.
Qed.

Lemma placeholder_syntax_witness :
  includes "as {{a}b}} and [[0]]" ("{{" ++ "a}b" ++ "}}") = true /\
  all_chars (fun x => negb (is_line_terminator x)) "a}b" = true /\
  includes ("a}b" ++ "}") "}}" = false.
Proof.
  exact (proj1 (proj2 (placeholder_syntax "as {{a}b}} and [[0]]")) "a}b"
           ltac:(vm_compute; left; reflexivity)).
Defined.

(* ------------------------------------------------------------------ *)
(** ** C9: parameter-name extraction *)

Lemma first_some_app_none : forall (A B : Type) (f : A -> option B) l1 l2,
  (forall x, In x l1 -> f x = None) -> first_some f (l1 ++ l2) = first_some f l2.
Proof.
  induction l1 as [|x xs IH]; simpl; intros l2 H; [reflexivity|].
  rewrite H by auto. apply IH. auto.
Qed.

Lemma first_some_ext : forall (A B : Type) (f g : A -> option B) l,
  (forall x, In x l -> f x = g x) -> first_some f l = first_some g l.
Proof.
  induction l as [|x xs IH]; simpl; intros H; [reflexivity|].
  rewrite H by auto. rewrite IH by auto. reflexivity.
Qed.

Lemma exec_from_begin_false : forall r s, exec_from (Begin :: r) false s = None.
Proof. intros r s. induction s as [|c s IH]; simpl; auto. Qed.

Lemma regex_match_param_re : forall s,
  regex_match param_re s = option_map fst (match_here (tl param_re) true s).
Proof.
  intros s. unfold regex_match.
  destruct s as [|c s]; cbn [exec_from];
    change (match_here param_re true ?x) with (match_here (tl param_re) true x);
    destruct (match_here (tl param_re) true _) as [[cs rest]|]; try reflexivity.
  unfold param_re. rewrite exec_from_begin_false. reflexivity.
Qed.

Lemma run_length_any : forall s, run_length AnyChar s = String.length s.
Proof. induction s; simpl; auto. Qed.

Lemma run_length_stop : forall k a c t,
  all_chars (class_matches k) a = true -> class_matches k c = false ->
  run_length k (a ++ String c t) = String.length a.
Proof.
  induction a as [|d a IH]; intros c t Ha Hc; simpl in *; [now rewrite Hc|].
  apply andb_prop in Ha as [H1 H2]. rewrite H1. f_equal. auto.
Qed.

Lemma sdrop_lt_head : forall p m a,
  all_chars p a = true -> m < String.length a ->
  exists c t, sdrop m a = String c t /\ p c = true.
Proof.
  intros p m; induction m as [|m IH]; intros a Ha Hm;
    (destruct a as [|c a]; simpl in *; [lia|]); apply andb_prop in Ha as [H1 H2].
  - eauto.
  - apply IH; [exact H2 | lia].
Qed.

Lemma not_char_lit : forall c d r b t,
  not_char c d = true -> match_here (Lit c :: r) b (String d t) = None.
Proof.
  intros c d r b t H. rewrite match_here_lit_cons. unfold not_char in H.
  destruct (char_eqb c d) eqn:E; [|reflexivity].
  apply char_eqb_eq in E. subst. rewrite char_eqb_refl in H. discriminate.
Qed.

(** The tail of [param_re] after the opening parenthesis never matches
    where no [)] follows. *)
Lemma close_paren_needed : forall b t,
  all_chars (not_char ")") t = true ->
  match_here [Rep (NotChar ")") 0 true true; Lit ")"] b t = None.
Proof.
  intros b t Ht. rewrite match_here_rep. apply first_some_none. intros n _.
  pose proof (sdrop_all_chars _ n t Ht) as Hd.
  destruct (sdrop n t) as [|c u]; [reflexivity|].
  simpl in Hd. apply andb_prop in Hd as [Hc _].
  rewrite not_char_lit by exact Hc. reflexivity.
Qed.

Lemma paren_group_fails : forall b t,
  all_chars (not_char ")") t = true ->
  match_here (tl (tl param_re)) b t = None.
Proof.
  intros b [|c t] Ht; [reflexivity|]. simpl tl. rewrite match_here_lit_cons.
  destruct (char_eqb "(" c); [|reflexivity].
  simpl in Ht. apply andb_prop in Ht as [_ Ht]. apply close_paren_needed. exact Ht.
Qed.

Lemma paren_group_matches : forall b mid post,
  all_chars (not_char ")") mid = true ->
  match_here (tl (tl param_re)) b ("(" ++ mid ++ ")" ++ post) = Some ([mid], post).
Proof.
  intros b mid post Hm. simpl tl. simpl (String.append "(" _).
  rewrite match_here_lit_cons. rewrite char_eqb_refl.
  rewrite match_here_rep. unfold rep_candidates.
  rewrite (run_length_stop (NotChar ")") mid ")" post Hm) by reflexivity.
  rewrite Nat.sub_0_r, seq_S. cbv zeta iota. rewrite rev_app_distr. simpl (rev [_]).
  cbn [app first_some]. rewrite sdrop_app, stake_app. simpl (sdrop 0 _).
  rewrite match_here_lit_cons, char_eqb_refl. reflexivity.
Qed.

(** The first [(] of [pre ++ t] is the one [t] starts with. *)
Lemma param_re_scan : forall pre t,
  all_chars (not_char "(") pre = true ->
  match_here (tl param_re) true (pre ++ t) =
  match match_here (tl (tl param_re)) (Nat.eqb (String.length pre) 0) t with
  | Some (cs, rest) => Some (cs, rest)
  | None =>
      first_some
        (fun n => match match_here (tl (tl param_re)) false (sdrop n (pre ++ t)) with
                  | Some (cs, rest) => Some (cs, rest)
                  | None => None
                  end)
        (seq (S (String.length pre)) (String.length t))
  end.
Proof.
  intros pre t Hp. simpl tl. rewrite match_here_rep. unfold rep_candidates.
  rewrite run_length_any, length_app, Nat.sub_0_r. cbv zeta iota beta.
  replace (S (String.length pre + String.length t))
    with (String.length pre + S (String.length t)) by lia.
  rewrite seq_app. simpl (0 + _).
  assert (forall l,
    first_some
      (fun n => match match_here [Lit "("; Rep (NotChar ")") 0 true true; Lit ")"]
                        (true && Nat.eqb n 0) (sdrop n (pre ++ t)) with
                | Some (cs, rest) => Some (cs, rest)
                | None => None
                end) (seq 0 (String.length pre) ++ l) =
    first_some
      (fun n => match match_here [Lit "("; Rep (NotChar ")") 0 true true; Lit ")"]
                        (true && Nat.eqb n 0) (sdrop n (pre ++ t)) with
                | Some (cs, rest) => Some (cs, rest)
                | None => None
                end) l) as Hskip.
  { intros l. rewrite first_some_app_none; [reflexivity|].
    intros n Hn. apply in_seq in Hn.
    rewrite sdrop_app_le by lia.
    destruct (sdrop_lt_head _ n pre Hp ltac:(lia)) as (c & u & -> & Hc).
    simpl String.append. rewrite not_char_lit by exact Hc. reflexivity. }
  rewrite Hskip. simpl seq. cbn [first_some].
  rewrite sdrop_app, andb_true_l.
  destruct (match_here [Lit "("; Rep (NotChar ")") 0 true true; Lit ")"]
              (Nat.eqb (String.length pre) 0) t) as [[cs rest]|]; [reflexivity|].
  apply first_some_ext. intros n Hn. apply in_seq in Hn.
  replace (Nat.eqb n 0) with false by (symmetry; apply Nat.eqb_neq; lia).
  reflexivity.
Qed.

(** C9 as stated fails: the source takes the text up to the first [)]
    after the first [(] and splits it on every comma; a default value with
    a call in it is cut apart, where bracket matching keeps it whole. *)
Lemma default_value_call_cut :
  extractFunctionParamNames "async login(user = f(a, b), x) {}" = ["user = f(a"; "b"] /\
  spec_param_names "async login(user = f(a, b), x) {}" = ["user = f(a, b)"; "x"].
Proof. split; vm_compute; reflexivity. Qed.

(** C9 (as the code does it): the parameter names are the text between the
    first [(] and the first [)] after it, split on every comma, trimmed, with
    the empty entries removed; when no [)] follows the first [(], or there is
    no [(], the list is empty. *)
Theorem param_names_first_paren_pair : forall pre mid post rest,
  all_chars (not_char "(") pre = true ->
  all_chars (not_char ")") mid = true ->
  all_chars (not_char ")") rest = true ->
  extractFunctionParamNames (pre ++ "(" ++ mid ++ ")" ++ post) =
    filter (fun p => negb (Nat.eqb (String.length p) 0)) (map trim (split "," mid)) /\
  extractFunctionParamNames (pre ++ "(" ++ rest) = [] /\
  extractFunctionParamNames pre = [].
Proof.
  intros pre mid post rest Hp Hm Hr. unfold extractFunctionParamNames.
  rewrite !regex_match_param_re. split; [|split].
  - rewrite param_re_scan by exact Hp. rewrite paren_group_matches by exact Hm.
    reflexivity.
  - rewrite param_re_scan by exact Hp.
    rewrite paren_group_fails by (simpl; exact Hr).
    rewrite first_some_none; [reflexivity|].
    intros n Hn. apply in_seq in Hn.
    rewrite sdrop_app_ge by lia.
    rewrite paren_group_fails; [reflexivity|].
    apply sdrop_all_chars. simpl. exact Hr.
  - rewrite <- (append_nil_s pre) at 1. rewrite param_re_scan by exact Hp.
    simpl (match_here _ _ ""). simpl seq. reflexivity.
Qed.

Lemma param_names_first_paren_pair_witness :
  extractFunctionParamNames "login(user, opts) {}" = ["user"; "opts"] /\
  extractFunctionParamNames "login(user, opts {}" = [] /\
  extractFunctionParamNames "get value {}" = [].
Proof.
  split; [|split].
  - exact (proj1 (param_names_first_paren_pair "login" "user, opts" " {}" "" eq_refl eq_refl eq_refl)).
  - exact (proj1 (proj2 (param_names_first_paren_pair "login" "" "" "user, opts {}" eq_refl eq_refl eq_refl))).
  - exact (proj2 (proj2 (param_names_first_paren_pair "get value {}" "" "" "" eq_refl eq_refl eq_refl))).
Defined.

(* ------------------------------------------------------------------ *)
(** ** C7: repeated placeholders *)

Lemma char_eqb_sym : forall a b, char_eqb a b = char_eqb b a.
Proof.
  unfold char_eqb. intros a b.
  destruct (ascii_dec a b), (ascii_dec b a); congruence.
Qed.

Lemma run_length_ge : forall k a b,
  all_chars (class_matches k) a = true -> String.length a <= run_length k (a ++ b).
Proof.
  induction a as [|c a IH]; intros b H; simpl in *; [lia|].
  apply andb_prop in H as [H1 H2]. rewrite H1. specialize (IH b H2). lia.
Qed.

Lemma exec_from_eq : forall r b s,
  exec_from r b s =
  match match_here r b s with
  | Some (cs, rest) => Some (s, cs, rest)
  | None => match s with EmptyString => None | String _ s' => exec_from r false s' end
  end.
Proof. intros r b s; destruct s; reflexivity. Qed.

Lemma map_capture1_repeat : forall x k, map capture1 (repeat [x] k) = repeat x k.
Proof. induction k as [|k IH]; simpl; [reflexivity|]. rewrite IH. reflexivity. Qed.

Section RepeatedPlaceholder.

Variable p : string.
Hypothesis p_no_close : all_chars (not_char "}") p = true.
Hypothesis p_no_bracket : all_chars (not_char "[") p = true.
Hypothesis p_no_lt : all_chars (fun c => negb (is_line_terminator c)) p = true.

Let P := "{{" ++ p ++ "}}".

Lemma curly_at : forall b rest, match_here curly_re b (P ++ rest) = Some ([p], rest).
Proof.
  intros b rest. unfold P. rewrite !append_assoc_s. unfold curly_re.
  cbn [String.append]. rewrite !match_here_lit_cons, !char_eqb_refl.
  rewrite match_here_rep. unfold rep_candidates. cbv zeta iota beta.
  apply (first_some_seq_at _ _ _ 0 (String.length p)).
  - pose proof (run_length_ge DotChar p (String "}" (String "}" rest)) p_no_lt). lia.
  - intros m Hm. rewrite sdrop_app_le by lia.
    destruct (sdrop_lt_head _ m p p_no_close ltac:(lia)) as (c & u & -> & Hc).
    cbn [String.append]. rewrite not_char_lit by exact Hc. reflexivity.
  - simpl (0 + _). rewrite sdrop_app, stake_app, match_two_lits_start. reflexivity.
Qed.

Lemma exec_curly_none : forall b s0,
  all_chars (not_char "{") s0 = true -> exec_from curly_re b s0 = None.
Proof.
  intros b s0; revert b; induction s0 as [|c s0 IH]; intros b H; [reflexivity|].
  simpl in H. apply andb_prop in H as [Hc H].
  rewrite exec_from_eq. unfold curly_re. rewrite not_char_lit by exact Hc. auto.
Qed.

Lemma exec_curly_skip : forall b s0 rest,
  all_chars (not_char "{") s0 = true ->
  exec_from curly_re b (s0 ++ P ++ rest) = Some (P ++ rest, [p], rest).
Proof.
  intros b s0; revert b; induction s0 as [|c s0 IH]; intros b rest H.
  - change ("" ++ P ++ rest) with (P ++ rest). rewrite exec_from_eq, curly_at. reflexivity.
  - simpl in H. apply andb_prop in H as [Hc H].
    rewrite exec_from_eq. change (String c s0 ++ P ++ rest) with (String c (s0 ++ P ++ rest)).
    unfold curly_re at 1. rewrite not_char_lit by exact Hc. auto.
Qed.

Definition plain_seg (s : string) : Prop :=
  all_chars (not_char "{") s = true /\ all_chars (not_char "[") s = true.

Lemma curly_matches_fuel : forall ss s0 f b,
  plain_seg s0 -> Forall plain_seg ss ->
  String.length (join P (s0 :: ss)) < f ->
  match_all_fuel f curly_re b (join P (s0 :: ss)) = repeat [p] (List.length ss).
Proof.
  induction ss as [|s1 ss IH]; intros s0 f b [H0 _] Hss Hf;
    (destruct f as [|f]; [simpl in Hf; lia|]).
  - simpl join. simpl. rewrite exec_curly_none by exact H0. reflexivity.
  - inversion Hss as [|? ? H1 Hss']; subst.
    change (join P (s0 :: s1 :: ss)) with (s0 ++ P ++ join P (s1 :: ss)) in *.
    cbn [match_all_fuel]. rewrite exec_curly_skip by exact H0.
    replace (Nat.eqb (String.length (join P (s1 :: ss))) (String.length (P ++ join P (s1 :: ss))))
      with false.
    2:{ symmetry. apply Nat.eqb_neq. rewrite length_app. unfold P. simpl. lia. }
    simpl (List.length _). simpl repeat. f_equal. apply IH; auto.
    assert (String.length P = 4 + String.length p) as HP
      by (unfold P; simpl; rewrite length_app; simpl; lia).
    rewrite !length_app in Hf. lia.
Qed.

Lemma no_square_matches : forall d,
  all_chars (not_char "[") d = true -> square_matches d = [].
Proof.
  intros d Hd. destruct (square_matches d) as [|x l] eqn:E; [reflexivity|].
  exfalso. assert (In x (square_matches d)) as Hin by (rewrite E; left; reflexivity).
  unfold square_matches in Hin. apply in_map_iff in Hin as [cs [_ Hin]].
  apply in_match_all in Hin as (pre & from & rest & b & Hs & Hm).
  apply match_square in Hm as (c & _ & Hfrom & _ & _).
  rewrite Hs, Hfrom, all_chars_app in Hd. apply andb_prop in Hd as [_ Hd].
  cbn [String.append all_chars] in Hd. unfold not_char in Hd.
  rewrite char_eqb_refl in Hd. discriminate.
Qed.

Lemma all_chars_join : forall q sep l,
  all_chars q sep = true -> Forall (fun s => all_chars q s = true) l ->
  all_chars q (join sep l) = true.
Proof.
  intros q sep l Hsep Hl. induction Hl as [|x l Hx Hl IH]; [reflexivity|].
  destruct l as [|y l]; [exact Hx|].
  change (join sep (x :: y :: l)) with (x ++ sep ++ join sep (y :: l)).
  rewrite !all_chars_app, Hx, Hsep, IH. reflexivity.
Qed.

Lemma placeholders_of_join : forall s0 ss,
  plain_seg s0 -> Forall plain_seg ss ->
  getPlaceholders (join P (s0 :: ss)) = repeat p (List.length ss).
Proof.
  intros s0 ss H0 Hss. unfold getPlaceholders.
  rewrite no_square_matches.
  - unfold curly_matches, match_all. rewrite curly_matches_fuel by (auto; lia).
    rewrite app_nil_r. apply map_capture1_repeat.
  - apply all_chars_join.
    + unfold P. rewrite !all_chars_app, p_no_bracket. reflexivity.
    + constructor; [apply H0|]. eapply Forall_impl; [|exact Hss]. intros s [_ Hs]. exact Hs.
Qed.

Lemma p_not_positional : starts_with "[[" p = false.
Proof.
  destruct p as [|c q] eqn:E; [reflexivity|]. simpl in p_no_bracket.
  apply andb_prop in p_no_bracket as [Hc _]. unfold not_char in Hc.
  simpl. rewrite char_eqb_sym. destruct (char_eqb c "["); [discriminate|reflexivity].
Qed.

Lemma index_of_first : forall acc rest,
  all_chars (not_char "{") acc = true ->
  index_of P (acc ++ P ++ rest) = Some (String.length acc).
Proof.
  induction acc as [|c acc IH]; intros rest H.
  - change ("" ++ P ++ rest) with (P ++ rest). rewrite index_of_eq, starts_with_app. reflexivity.
  - simpl in H. apply andb_prop in H as [Hc H]. rewrite index_of_eq.
    unfold P at 1. cbn [String.append starts_with]. unfold not_char in Hc.
    rewrite char_eqb_sym. destruct (char_eqb c "{"); [discriminate|].
    simpl andb. cbv iota. rewrite IH by exact H. reflexivity.
Qed.

Lemma get_substitution_plain : forall m b a r,
  all_chars (not_char "$") r = true -> get_substitution m b a r = r.
Proof.
  induction r as [|c r IH]; intros H; [reflexivity|].
  simpl in H. apply andb_prop in H as [Hc H]. unfold not_char in Hc.
  simpl. destruct (char_eqb c "$"); [discriminate|]. rewrite IH by exact H. reflexivity.
Qed.

Lemma replace_first : forall acc rest r,
  all_chars (not_char "{") acc = true -> all_chars (not_char "$") r = true ->
  replace (acc ++ P ++ rest) P r = acc ++ r ++ rest.
Proof.
  intros acc rest r Ha Hr. unfold replace. rewrite index_of_first by exact Ha.
  cbv zeta. rewrite stake_app, get_substitution_plain by exact Hr.
  rewrite sdrop_app_ge by lia. replace (_ + _ - _) with (String.length P) by lia.
  rewrite sdrop_app. reflexivity.
Qed.

Lemma join_cons_app : forall sep a b l, a ++ join sep (b :: l) = join sep ((a ++ b) :: l).
Proof.
  intros sep a b [|c l]; [reflexivity|]. simpl join. apply eq_sym, append_assoc_s.
Qed.

Lemma format_loop_repeated : forall methodName paramNames args v txt ss acc,
  resolve_named paramNames args p = inr v ->
  js_String v = inr txt ->
  all_chars (not_char "{") txt = true ->
  all_chars (not_char "$") txt = true ->
  all_chars (not_char "{") acc = true -> Forall plain_seg ss ->
  format_loop methodName paramNames args (repeat p (List.length ss)) (join P (acc :: ss)) =
  inr (join txt (acc :: ss)).
Proof.
  intros methodName paramNames args v txt ss.
  induction ss as [|s1 ss IH]; intros acc Hv Ht Hv1 Hv2 Ha Hss; [reflexivity|].
  inversion Hss as [|? ? [H1 _] Hss']; subst.
  simpl repeat. cbn [format_loop]. unfold format_placeholder.
  rewrite p_not_positional. simpl andb. cbv iota. rewrite Hv, Ht.
  change (join P (acc :: s1 :: ss)) with (acc ++ P ++ join P (s1 :: ss)).
  rewrite replace_first by assumption. rewrite !join_cons_app.
  rewrite IH by (auto; rewrite !all_chars_app, Ha, Hv1, H1; reflexivity).
  change (join txt (acc :: s1 :: ss)) with (acc ++ txt ++ join txt (s1 :: ss)).
  rewrite join_cons_app, join_cons_app. reflexivity.
Qed.

Lemma findMissingParams_repeat : forall k paramNames,
  mem (root p) paramNames = true -> findMissingParams (repeat p k) paramNames = [].
Proof.
  intros k paramNames H. unfold findMissingParams.
  induction k as [|k IH]; [reflexivity|]. simpl repeat.
  cbn [filter]. rewrite p_not_positional. simpl negb. cbv iota. cbn [map filter].
  rewrite H. exact IH.
Qed.

End RepeatedPlaceholder.

Lemma step_description_nonempty : forall m d fnStr args,
  d <> EmptyString ->
  step_description m (Some d) fnStr args =
  (let paramNames := extractFunctionParamNames fnStr in
   let placeholders := getPlaceholders d in
   let missingParams := findMissingParams placeholders paramNames in
   match missingParams with
   | _ :: _ => inl (FormatError (MissingParameters m missingParams))
   | [] => formatDescription m d placeholders paramNames args
   end).
Proof. intros m [|c d] fnStr args H; [contradiction|reflexivity]. Qed.

(** C7 as stated fails: each occurrence is handled by a first-occurrence
    [replace] on the partial result, so a value that contains the
    placeholder text (or a [$&] pattern) is itself rewritten by the next
    pass and a later occurrence of the template is left as it was. *)
Lemma value_with_placeholder_text_rewritten :
  step_description "LoginPage.login" (Some "{{a}} {{a}}") "login(a) {}" [VStr "x{{a}}"]
    = inr "xx{{a}} {{a}}" /\
  step_description "LoginPage.login" (Some "{{a}} {{a}}") "login(a) {}" [VStr "$&"]
    = inr "{{a}} {{a}}".
Proof. split; vm_compute; reflexivity. Qed.

(** X13: in a template made of two or more brace-free, bracket-free segments
    joined by the same named placeholder [{{p}}] (with [p] free of [}], [[]
    and line terminators, its root a declared parameter, resolving to [v]
    whose [String(v)] is [txt]), every occurrence is replaced by [txt],
    provided [txt] has no [{] and no [$]. *)
Theorem repeated_placeholder_all_substituted :
  forall methodName fnStr args p v txt segs,
  2 <= List.length segs ->
  Forall (fun s => all_chars (not_char "{") s = true /\ all_chars (not_char "[") s = true) segs ->
  all_chars (not_char "}") p = true ->
  all_chars (not_char "[") p = true ->
  all_chars (fun c => negb (is_line_terminator c)) p = true ->
  mem (root p) (extractFunctionParamNames fnStr) = true ->
  resolve_named (extractFunctionParamNames fnStr) args p = inr v ->
  js_String v = inr txt ->
  all_chars (not_char "{") txt = true ->
  all_chars (not_char "$") txt = true ->
  step_description methodName (Some (join ("{{" ++ p ++ "}}") segs)) fnStr args =
  inr (join txt segs).
Proof.
  intros methodName fnStr args p v txt segs Hlen Hsegs Hp1 Hp2 Hp3 Hroot Hv Ht Hv1 Hv2.
  destruct segs as [|s0 ss]; [simpl in Hlen; lia|].
  destruct ss as [|s1 ss']; [simpl in Hlen; lia|].
  inversion Hsegs as [|? ? H0 Hss]; subst.
  rewrite step_description_nonempty.
  2:{ change (join ("{{" ++ p ++ "}}") (s0 :: s1 :: ss'))
        with (s0 ++ ("{{" ++ p ++ "}}") ++ join ("{{" ++ p ++ "}}") (s1 :: ss')).
      destruct s0; discriminate. }
  cbv zeta. rewrite placeholders_of_join by assumption.
  rewrite findMissingParams_repeat by assumption.
  unfold formatDescription.
  apply (format_loop_repeated p Hp1 Hp2 Hp3 methodName _ args v txt); try assumption. apply H0.
Qed.

Lemma repeated_placeholder_all_substituted_witness :
  step_description "LoginPage.login" (Some "as {{user.name}} and {{user.name}}")
    "login(user) {}" [VObj [("name", VStr "alice")] PObjectPrototype] = inr "as alice and alice".
Proof.
  exact (repeated_placeholder_all_substituted "LoginPage.login" "login(user) {}"
    [VObj [("name", VStr "alice")] PObjectPrototype] "user.name" (JV (VStr "alice")) "alice"
    ["as "; " and "; ""]
    ltac:(simpl; lia)
    ltac:(repeat constructor)
    eq_refl eq_refl eq_refl
    ltac:(vm_compute; reflexivity) ltac:(vm_compute; reflexivity)
    eq_refl eq_refl eq_refl).
Defined.

(* ------------------------------------------------------------------ *)
(** ** Further properties of the code *)

(** *** [filterDecoratorFrames] *)

Lemma index_of_none_sdrop : forall p s,
  index_of p s = None -> forall k, starts_with p (sdrop k s) = false.
Proof.
  intros p s; induction s as [|c s IH]; intros H k; rewrite index_of_eq in H.
  - destruct (starts_with p "") eqn:E; [discriminate|]. destruct k; exact E.
  - destruct (starts_with p (String c s)) eqn:E; [discriminate|].
    destruct (index_of p s) eqn:E'; [discriminate|].
    destruct k; [exact E | apply IH; reflexivity].
Qed.

Lemma includes_false_iff : forall s p,
  includes s p = false <-> forall k, starts_with p (sdrop k s) = false.
Proof.
  intros s p. unfold includes. split.
  - destruct (index_of p s) eqn:E; [discriminate|]. intros _. apply index_of_none_sdrop. exact E.
  - intros H. rewrite index_of_none; [reflexivity|]. intros m _. apply H.
Qed.

Lemma starts_with_cut : forall p u c v,
  starts_with p (u ++ String c v) = true -> all_chars (not_char c) p = true ->
  starts_with p u = true.
Proof.
  intros p u; revert p; induction u as [|e u IH]; intros p c v H Hp.
  - destruct p as [|d q]; [reflexivity|]. simpl in H, Hp.
    apply andb_prop in H as [H _]. apply andb_prop in Hp as [Hd _].
    apply char_eqb_eq in H. subst. unfold not_char in Hd. rewrite char_eqb_refl in Hd.
    discriminate.
  - destruct p as [|d q]; [reflexivity|]. simpl in H, Hp |- *.
    apply andb_prop in H as [H1 H2]. apply andb_prop in Hp as [_ Hp].
    rewrite H1. simpl. eapply IH; eassumption.
Qed.

(** A text without line breaks found in lines joined by line breaks lies
    within one of them. *)
Lemma includes_sep : forall a b p c,
  includes a p = false -> includes b p = false -> all_chars (not_char c) p = true ->
  includes (a ++ String c b) p = false.
Proof.
  intros a b p c Ha Hb Hp. rewrite includes_false_iff in *. intros k.
  destruct (Nat.le_gt_cases k (String.length a)) as [Hk|Hk].
  - rewrite sdrop_app_le by exact Hk.
    destruct (starts_with p (sdrop k a ++ String c b)) eqn:E; [|reflexivity].
    rewrite <- (Ha k). symmetry. eapply starts_with_cut; eassumption.
  - rewrite sdrop_app_ge by lia.
    destruct (k - String.length a) as [|k'] eqn:E; [lia|]. apply Hb.
Qed.

Lemma includes_join : forall c p ls,
  starts_with p "" = false -> all_chars (not_char c) p = true ->
  Forall (fun l => includes l p = false) ls ->
  includes (join (String c EmptyString) ls) p = false.
Proof.
  intros c p ls H0 Hp Hls. induction Hls as [|x ls Hx Hls IH].
  - unfold includes. simpl. rewrite H0. reflexivity.
  - destruct ls as [|y ls]; [exact Hx|].
    change (join (String c "") (x :: y :: ls)) with (x ++ String c (join (String c "") (y :: ls))).
    apply includes_sep; assumption.
Qed.

Lemma split_app_sep : forall c a b,
  all_chars (not_char c) a = true -> split c (a ++ String c b) = a :: split c b.
Proof.
  intros c a b; induction a as [|d a IH]; intros H.
  - simpl. rewrite char_eqb_refl. reflexivity.
  - simpl in H. apply andb_prop in H as [Hd H]. unfold not_char in Hd.
    simpl. rewrite IH by exact H. destruct (char_eqb d c); [discriminate|reflexivity].
Qed.

Lemma split_pieces : forall c s,
  Forall (fun x => all_chars (not_char c) x = true) (split c s).
Proof.
  intros c s; induction s as [|d s IH]; simpl; [repeat constructor|].
  destruct (char_eqb d c) eqn:E; [constructor; [reflexivity|exact IH]|].
  destruct (split c s) as [|x xs]; constructor.
  - simpl. unfold not_char. rewrite E. reflexivity.
  - constructor.
  - inversion IH; subst. simpl. unfold not_char. rewrite E. simpl. assumption.
  - inversion IH; subst. assumption.
Qed.

Lemma split_join : forall c ls,
  ls <> [] -> Forall (fun x => all_chars (not_char c) x = true) ls ->
  split c (join (String c EmptyString) ls) = ls.
Proof.
  intros c ls Hne Hls. induction Hls as [|x ls Hx Hls IH]; [contradiction|].
  destruct ls as [|y ls].
  - simpl join. apply split_no_sep. apply includes_false_iff. intros k.
    pose proof (sdrop_all_chars _ k x Hx) as H.
    destruct (sdrop k x) as [|e t]; [reflexivity|]. simpl in H |- *.
    apply andb_prop in H as [He _]. unfold not_char in He.
    rewrite char_eqb_sym. destruct (char_eqb e c); [discriminate|reflexivity].
  - change (join (String c "") (x :: y :: ls)) with (x ++ String c (join (String c "") (y :: ls))).
    rewrite split_app_sep by exact Hx. f_equal. apply IH. discriminate.
Qed.

Definition keeps_line (line : string) : bool :=
  negb (includes line "playwright-step-decorator").

(** X1: the filtered stack never mentions the decorator's file name: no line
    kept contains it, and joining lines with line breaks cannot form it. *)
Theorem filtered_stack_never_mentions_decorator : forall stack,
  includes (filterDecoratorFrames stack) "playwright-step-decorator" = false.
Proof.
  intros stack. unfold filterDecoratorFrames. apply includes_join; [reflexivity|reflexivity|].
  apply Forall_forall. intros l Hl. apply filter_In in Hl as [_ Hl].
  destruct (includes l "playwright-step-decorator"); [discriminate|reflexivity].
Qed.

Lemma filter_idem : forall (A : Type) (f : A -> bool) l, filter f (filter f l) = filter f l.
Proof.
  intros A f l; induction l as [|x l IH]; simpl; [reflexivity|].
  destruct (f x) eqn:E; simpl; [rewrite E, IH|]; auto.
Qed.

Lemma filtered_lines : forall stack,
  (filter keeps_line (split "010" stack) = [] /\ filterDecoratorFrames stack = EmptyString) \/
  (filter keeps_line (split "010" stack) <> [] /\
   split "010" (filterDecoratorFrames stack) = filter keeps_line (split "010" stack)).
Proof.
  intros stack. unfold filterDecoratorFrames.
  change (filter (fun line => negb (includes line "playwright-step-decorator")) (split "010" stack))
    with (filter keeps_line (split "010" stack)).
  destruct (filter keeps_line (split "010" stack)) as [|x l] eqn:E; [left; split; reflexivity|].
  right. split; [discriminate|]. apply split_join; [discriminate|].
  rewrite <- E. apply Forall_forall. intros y Hy.
  apply filter_In in Hy as [Hy _]. pose proof (split_pieces "010" stack) as Hs.
  rewrite Forall_forall in Hs. apply Hs. exact Hy.
Qed.

(** X2: the lines of the filtered stack are exactly the kept lines of the
    original stack, in their order; when every line is dropped the result
    is the empty string. *)
Theorem filtered_stack_lines : forall stack,
  (filter keeps_line (split "010" stack) = [] /\ filterDecoratorFrames stack = EmptyString) \/
  (filter keeps_line (split "010" stack) <> [] /\
   split "010" (filterDecoratorFrames stack) = filter keeps_line (split "010" stack)).
Proof. exact filtered_lines. Qed.

(** X3: filtering an already filtered stack changes nothing. *)
Theorem filterDecoratorFrames_idempotent : forall stack,
  filterDecoratorFrames (filterDecoratorFrames stack) = filterDecoratorFrames stack.
Proof.
  intros stack. destruct (filtered_lines stack) as [[_ H]|[_ H]].
  - rewrite H. reflexivity.
  - remember (filterDecoratorFrames stack) as r eqn:Er.
    unfold filterDecoratorFrames at 1. rewrite H.
    change (fun line => negb (includes line "playwright-step-decorator")) with keeps_line.
    rewrite filter_idem, Er. reflexivity.
Qed.

(** *** What a regex capture can contain *)

(** The captured repetitions of a pattern, in order: class and minimum. *)
Fixpoint cap_classes (r : regex) : list (char_class * nat) :=
  match r with
  | [] => []
  | Rep k mn _ true :: r' => (k, mn) :: cap_classes r'
  | _ :: r' => cap_classes r'
  end.

Definition capture_fits (c : string) (km : char_class * nat) : Prop :=
  all_chars (class_matches (fst km)) c = true /\ snd km <= String.length c.

Lemma match_here_caps : forall r b s cs rest,
  match_here r b s = Some (cs, rest) -> Forall2 capture_fits cs (cap_classes r).
Proof.
  induction r as [|a r IH]; intros b s cs rest H.
  - simpl in H. inversion H; subst. constructor.
  - destruct a as [| |c|k mn g cap]; simpl in H.
    + destruct b; [eapply IH; exact H | discriminate].
    + destruct s; [eapply IH; exact H | discriminate].
    + destruct s as [|d s]; [discriminate|].
      destruct (char_eqb c d); [eapply IH; exact H | discriminate].
    + apply first_some_in in H as (n & Hin & Hn). apply in_rep_candidates in Hin.
      destruct (match_here r (b && Nat.eqb n 0) (sdrop n s)) as [[cs' rest']|] eqn:E;
        [|discriminate].
      inversion Hn; subst. clear Hn. apply IH in E.
      pose proof (run_length_le k s).
      destruct cap; simpl; [|exact E]. constructor; [|exact E]. split.
      * apply (all_chars_stake_run k). lia.
      * simpl. rewrite length_stake by lia. lia.
Qed.

Lemma regex_match_caps : forall r s cs,
  regex_match r s = Some cs -> Forall2 capture_fits cs (cap_classes r).
Proof.
  intros r s cs H. unfold regex_match in H.
  destruct (exec_from r true s) as [[[from cs'] rest]|] eqn:E; [|discriminate].
  inversion H; subst. apply exec_from_spec in E as (pre & b & _ & Hm).
  eapply match_here_caps. exact Hm.
Qed.

(** *** Numbers below [2^53] *)

Lemma number_of_Z_exact : forall z, (0 <= z < 2 ^ 53)%Z -> number_of_Z z = Fin z.
Proof.
  intros z Hz. unfold number_of_Z, double_of_nonneg.
  replace (z <? 0)%Z with false by lia. replace (z <? 2 ^ 53)%Z with true by lia. reflexivity.
Qed.

(** Past [2^53] the rounding gives [Infinity] or a double at least [2^53]. *)
Lemma double_of_nonneg_large : forall z, (2 ^ 53 <= z)%Z ->
  match double_of_nonneg z with
  | Fin y => (2 ^ 53 <= y)%Z
  | Infinity b => b = false
  | NaN => False
  end.
Proof.
  intros z Hz. unfold double_of_nonneg.
  replace (z <? 2 ^ 53)%Z with false by lia. cbv zeta.
  assert (Hl : (53 <= Z.log2 z)%Z).
  { change 53%Z with (Z.log2 (2 ^ 53)). apply Z.log2_le_mono. exact Hz. }
  set (e := (Z.log2 z - 52)%Z).
  assert (He : (1 <= e)%Z) by (unfold e; lia).
  assert (Hq : (2 ^ 52 <= z / 2 ^ e)%Z).
  { apply Z.div_le_lower_bound; [apply Z.pow_pos_nonneg; lia|].
    rewrite <- Z.pow_add_r by lia. unfold e.
    replace (2 ^ (Z.log2 z - 52 + 52))%Z with (2 ^ Z.log2 z)%Z by (f_equal; lia).
    apply (Z.log2_spec z). lia. }
  set (q := (z / 2 ^ e)%Z) in *.
  match goal with |- context [if ?b then (q + 1)%Z else q] =>
    assert (Hq' : (q <= if b then (q + 1)%Z else q)%Z) by (destruct b; lia);
    set (q' := if b then (q + 1)%Z else q) in * end.
  destruct (2 ^ 1024 <=? q' * 2 ^ e)%Z; [reflexivity|].
  assert (H2 : (2 <= 2 ^ e)%Z).
  { replace 2%Z with (2 ^ 1)%Z at 1 by reflexivity. apply Z.pow_le_mono_r; lia. }
  replace (2 ^ 53)%Z with (2 ^ 52 * 2)%Z by reflexivity. nia.
Qed.

Lemma rounds_to_exact : forall v x, (0 < x < 2 ^ 53)%Z -> rounds_to v x = true -> v = x.
Proof.
  intros v x Hx H. unfold rounds_to, number_of_Z in H.
  destruct (Z.ltb_spec v 0) as [Hv|Hv].
  - destruct (Z.ltb_spec (- v) (2 ^ 53)) as [Hs|Hs].
    + unfold double_of_nonneg in H. replace (- v <? 2 ^ 53)%Z with true in H by lia.
      apply Z.eqb_eq in H. lia.
    + pose proof (double_of_nonneg_large (- v) Hs) as Hd.
      destruct (double_of_nonneg (- v)); try discriminate. apply Z.eqb_eq in H. lia.
  - destruct (Z.ltb_spec v (2 ^ 53)) as [Hs|Hs].
    + unfold double_of_nonneg in H. replace (v <? 2 ^ 53)%Z with true in H by lia.
      apply Z.eqb_eq in H. lia.
    + pose proof (double_of_nonneg_large v Hs) as Hd.
      destruct (double_of_nonneg v); try discriminate. apply Z.eqb_eq in H. lia.
Qed.

Lemma strip_zero_value : forall s p, (0 <= p)%Z ->
  let '(s', p') := strip_zero (s, p) in (s' * 10 ^ p' = s * 10 ^ p)%Z.
Proof.
  intros s p Hp. unfold strip_zero.
  destruct (Z.eqb_spec (s mod 10) 0) as [H|H]; [|reflexivity].
  rewrite Z.pow_add_r by lia. rewrite (Z.div_mod s 10) at 2 by lia. rewrite H.
  change (10 ^ 1)%Z with 10%Z. lia.
Qed.

Lemma nearest_at_exact : forall x p s p', (0 < x < 2 ^ 53)%Z -> (0 <= p)%Z ->
  nearest_at x p = Some (s, p') -> (s * 10 ^ p' = x)%Z.
Proof.
  intros x p s p' Hx Hp H. unfold nearest_at in H.
  pose proof (strip_zero_value (x / 10 ^ p + 1) p Hp) as Hs.
  destruct (strip_zero ((x / 10 ^ p + 1)%Z, p)) as [s1 p1] eqn:E.
  destruct (rounds_to (x / 10 ^ p * 10 ^ p)%Z x) eqn:R1;
  destruct (rounds_to ((x / 10 ^ p + 1) * 10 ^ p)%Z x) eqn:R2; try discriminate.
  - destruct (_ || _); injection H as <- <-.
    + apply rounds_to_exact; assumption.
    + rewrite Hs. apply rounds_to_exact; assumption.
  - injection H as <- <-. apply rounds_to_exact; assumption.
  - injection H as <- <-. rewrite Hs. apply rounds_to_exact; assumption.
Qed.

Lemma shortest_from_exact : forall x n s p, (0 < x < 2 ^ 53)%Z ->
  shortest_from x n = Some (s, p) -> (s * 10 ^ p = x)%Z.
Proof.
  intros x n; induction n as [|n IH]; intros s p Hx H; [discriminate|].
  simpl in H. destruct (nearest_at x (Z.of_nat n)) as [[s0 p0]|] eqn:E.
  - injection H as <- <-. apply (nearest_at_exact x (Z.of_nat n)); [exact Hx|lia|exact E].
  - apply IH; assumption.
Qed.

(** Below [2^53] a Number prints as its decimal digits. *)
Lemma number_to_string_exact : forall z, (0 <= z < 2 ^ 53)%Z ->
  number_to_string (Fin z) = z_to_string z.
Proof.
  intros z Hz. unfold number_to_string. replace (z <? 0)%Z with false by lia.
  unfold nonneg_to_string. destruct (Z.eqb_spec z 0) as [->|Hz0]; [reflexivity|].
  destruct (shortest_from z _) as [[s p]|] eqn:E; [|reflexivity].
  apply shortest_from_exact in E; [|lia]. rewrite E.
  replace (z <? 10 ^ 21)%Z with true by (symmetry; apply Z.ltb_lt; lia). reflexivity.
Qed.

(** *** [parseInt] on a run of digits *)

Lemma digit_not_space : forall c, is_digit c = true -> is_space c = false.
Proof.
  intros c. unfold is_digit, is_space. set (n := nat_of_ascii c).
  intros H. destruct (Nat.leb_spec 48 n), (Nat.leb_spec n 57); simpl in H; try discriminate.
  destruct (Nat.leb_spec 9 n), (Nat.leb_spec n 13), (Nat.eqb_spec n 32), (Nat.eqb_spec n 160);
    simpl; reflexivity || lia.
Qed.

Lemma digits_prefix_all : forall s, all_chars is_digit s = true -> digits_prefix s = s.
Proof.
  induction s as [|c s IH]; intros H; [reflexivity|]. simpl in H |- *.
  apply andb_prop in H as [Hc H]. rewrite Hc, IH by exact H. reflexivity.
Qed.

Lemma digits_value_nonneg : forall s acc, (0 <= acc)%Z -> (0 <= digits_value_acc acc s)%Z.
Proof. induction s as [|c s IH]; intros acc H; simpl; [exact H|]. apply IH. lia. Qed.

(** [parseInt] of a non-empty run of decimal digits is its value. *)
Lemma parse_int_digits : forall s,
  all_chars is_digit s = true -> s <> EmptyString ->
  parse_int s = number_of_Z (digits_value_acc 0 s) /\ (0 <= digits_value_acc 0 s)%Z.
Proof.
  intros s H Hne. split; [|apply digits_value_nonneg; lia].
  destruct s as [|c t]; [contradiction|]. unfold parse_int.
  pose proof H as H'. simpl in H'. apply andb_prop in H' as [Hc _].
  simpl trim_start. rewrite digit_not_space by exact Hc.
  destruct (char_eqb c "-") eqn:E1; [apply char_eqb_eq in E1; subst; discriminate|].
  destruct (char_eqb c "+") eqn:E2; [apply char_eqb_eq in E2; subst; discriminate|].
  rewrite digits_prefix_all by exact H. f_equal. lia.
Qed.

(** The rounding of a non-negative integer is a non-negative integer or
    [+Infinity]. *)
Definition nonneg_number (n : js_number) : bool :=
  match n with
  | Fin z => (0 <=? z)%Z
  | Infinity false => true
  | _ => false
  end.

Lemma number_of_Z_nonneg : forall z, (0 <= z)%Z -> nonneg_number (number_of_Z z) = true.
Proof.
  intros z Hz. destruct (Z.ltb_spec z (2 ^ 53)) as [Hs|Hs].
  - rewrite number_of_Z_exact by lia. simpl. apply Z.leb_le. exact Hz.
  - unfold number_of_Z. replace (z <? 0)%Z with false by lia.
    pose proof (double_of_nonneg_large z Hs) as Hd.
    destruct (double_of_nonneg z) as [|b|y]; simpl; [contradiction|subst; reflexivity|].
    apply Z.leb_le. lia.
Qed.

(** *** [captureCallSiteLocation] *)

Lemma parse_frame_fields : forall line file lineNum col,
  parse_frame line = Some (file, lineNum, col) ->
  file <> EmptyString /\ all_chars is_digit lineNum = true /\ lineNum <> EmptyString /\
  all_chars is_digit col = true /\ col <> EmptyString.
Proof.
  intros line file lineNum col H. unfold parse_frame in H.
  assert (exists r, cap_classes r = [(DotChar, 1); (DigitChar, 1); (DigitChar, 1)] /\
    exists cs, regex_match r line = Some cs /\
               (nth 0 cs "", nth 1 cs "", nth 2 cs "") = (file, lineNum, col))
    as (r & Hr & cs & Hm & Hcs).
  { destruct (regex_match frame_re_paren line) as [cs|] eqn:E.
    - exists frame_re_paren. split; [reflexivity|]. exists cs. inversion H; subst. auto.
    - destruct (regex_match frame_re_at line) as [cs|] eqn:E'; [|discriminate].
      exists frame_re_at. split; [reflexivity|]. exists cs. inversion H; subst. auto. }
  apply regex_match_caps in Hm. rewrite Hr in Hm.
  inversion Hm as [|x1 l1 ? ? [Hf1 Hf2] Hm1]; subst.
  inversion Hm1 as [|x2 l2 ? ? [Hl1 Hl2] Hm2]; subst.
  inversion Hm2 as [|x3 l3 ? ? [Hc1 Hc2] Hm3]; subst.
  inversion Hm3; subst. simpl in Hcs. inversion Hcs; subst. simpl in *.
  repeat split; try assumption; intros He; subst; simpl in *; lia.
Qed.

(** X4: a located call site always has a non-empty file, and a line and a
    column that are non-negative: each the double nearest to its digits, an
    integer, or [+Infinity] for a digit run past the largest double; never
    [NaN] nor negative. *)
Theorem call_site_location_numbers : forall stack loc,
  captureCallSiteLocation stack = Some loc ->
  loc_file loc <> EmptyString /\
  nonneg_number (loc_line loc) = true /\ nonneg_number (loc_column loc) = true.
Proof.
  intros stack loc H. unfold captureCallSiteLocation in H.
  destruct stack as [[|c s]|]; try discriminate.
  apply scan_frames_some in H as (pre & line & post & file & lineNum & col & _ & _ & Hp & _ & ->).
  apply parse_frame_fields in Hp as (Hf & Hl1 & Hl2 & Hc1 & Hc2).
  destruct (parse_int_digits _ Hl1 Hl2) as [E1 N1].
  destruct (parse_int_digits _ Hc1 Hc2) as [E2 N2].
  simpl. rewrite E1, E2. split; [exact Hf|].
  split; apply number_of_Z_nonneg; assumption.
Qed.

Definition two_frame_stack : string :=
  "Error" ++ String "010" "    at captureCallSiteLocation (/p/dist/playwright-step-decorator.js:60:17)"
  ++ String "010" "    at Page.open (/p/dist/playwright-step-decorator.js:30:9)"
  ++ String "010" "    at /p/tests/home.spec.ts:12:7".

Lemma call_site_location_numbers_witness :
  captureCallSiteLocation (Some two_frame_stack) =
    Some {| loc_file := "/p/tests/home.spec.ts"; loc_line := Fin 12%Z; loc_column := Fin 7%Z |} /\
  "/p/tests/home.spec.ts" <> EmptyString /\
  nonneg_number (Fin 12%Z) = true /\ nonneg_number (Fin 7%Z) = true.
Proof.
  assert (E : captureCallSiteLocation (Some two_frame_stack) =
    Some {| loc_file := "/p/tests/home.spec.ts"; loc_line := Fin 12%Z; loc_column := Fin 7%Z |})
    by (vm_compute; reflexivity).
  split; [exact E|]. exact (call_site_location_numbers _ _ E).
Defined.

(** *** [extractFunctionParamNames] *)

Lemma split_pieces_all : forall q c s,
  all_chars q s = true -> Forall (fun x => all_chars q x = true) (split c s).
Proof.
  intros q c s; induction s as [|d s IH]; intros H; simpl; [repeat constructor|].
  simpl in H. apply andb_prop in H as [Hd H]. specialize (IH H).
  destruct (char_eqb d c); [constructor; [reflexivity|exact IH]|].
  destruct (split c s) as [|x xs]; constructor.
  - simpl. rewrite Hd. reflexivity.
  - constructor.
  - inversion IH; subst. simpl. rewrite Hd. assumption.
  - inversion IH; subst. assumption.
Qed.

Lemma rev_string_app : forall a b, rev_string (a ++ b) = rev_string b ++ rev_string a.
Proof.
  induction a as [|c a IH]; intros b; simpl.
  - rewrite append_nil_s. reflexivity.
  - rewrite IH, append_assoc_s. reflexivity.
Qed.

Lemma rev_string_involutive : forall s, rev_string (rev_string s) = s.
Proof.
  induction s as [|c s IH]; [reflexivity|]. simpl. rewrite rev_string_app, IH. reflexivity.
Qed.

Lemma all_chars_rev : forall q s, all_chars q (rev_string s) = all_chars q s.
Proof.
  intros q; induction s as [|c s IH]; [reflexivity|]. simpl.
  rewrite all_chars_app, IH. simpl. rewrite andb_true_r, andb_comm. reflexivity.
Qed.

Lemma trim_start_suffix : forall s, exists p, s = p ++ trim_start s.
Proof.
  induction s as [|c s [p Hp]]; [exists ""; reflexivity|]. simpl.
  destruct (is_space c); [exists (String c p); simpl; f_equal; exact Hp | exists ""; reflexivity].
Qed.

Lemma trim_start_head : forall s c t, trim_start s = String c t -> is_space c = false.
Proof.
  induction s as [|d s IH]; intros c t H; simpl in H; [discriminate|].
  destruct (is_space d) eqn:E; [eapply IH; exact H|]. inversion H; subst. exact E.
Qed.

Lemma all_chars_trim : forall q s, all_chars q s = true -> all_chars q (trim s) = true.
Proof.
  intros q s H. unfold trim. rewrite all_chars_rev.
  destruct (trim_start_suffix (rev_string (trim_start s))) as [p Hp].
  destruct (trim_start_suffix s) as [p' Hp'].
  rewrite Hp', all_chars_app in H. apply andb_prop in H as [_ H].
  rewrite <- all_chars_rev in H. rewrite Hp, all_chars_app in H.
  apply andb_prop in H as [_ H]. exact H.
Qed.

Lemma trim_last : forall s t c, trim s = t ++ String c EmptyString -> is_space c = false.
Proof.
  intros s t c H. unfold trim in H.
  apply (f_equal rev_string) in H. rewrite rev_string_involutive, rev_string_app in H.
  simpl in H. eapply trim_start_head. exact H.
Qed.

Lemma trim_first : forall s c t, trim s = String c t -> is_space c = false.
Proof.
  intros s c t H. unfold trim in H.
  apply (f_equal rev_string) in H. rewrite rev_string_involutive in H. simpl in H.
  destruct (trim_start_suffix (rev_string (trim_start s))) as [p Hp].
  rewrite H in Hp. apply (f_equal rev_string) in Hp.
  rewrite rev_string_involutive, !rev_string_app in Hp. simpl in Hp.
  eapply trim_start_head. exact Hp.
Qed.

(** X5: every extracted parameter name is non-empty, has no comma and no
    closing parenthesis, and neither starts nor ends with white space. *)
Theorem param_names_shape : forall fnStr name,
  In name (extractFunctionParamNames fnStr) ->
  name <> EmptyString /\
  all_chars (not_char ",") name = true /\ all_chars (not_char ")") name = true /\
  (forall c t, name = String c t -> is_space c = false) /\
  (forall t c, name = t ++ String c EmptyString -> is_space c = false).
Proof.
  intros fnStr name H. unfold extractFunctionParamNames in H.
  destruct (regex_match param_re fnStr) as [cs|] eqn:E; [|contradiction].
  apply filter_In in H as [H Hlen]. apply in_map_iff in H as [x [<- Hx]].
  apply regex_match_caps in E. simpl in E.
  inversion E as [|c0 l0 ? ? [Hc0 _] E1]; subst. inversion E1; subst.
  unfold capture1 in Hx. simpl in Hx.
  pose proof (split_pieces "," c0) as Hs1. pose proof (split_pieces_all _ "," c0 Hc0) as Hs2.
  rewrite Forall_forall in Hs1, Hs2.
  split; [|split; [|split; [|split]]].
  - intros He. rewrite He in Hlen. discriminate.
  - apply all_chars_trim. apply Hs1. exact Hx.
  - apply all_chars_trim. apply Hs2. exact Hx.
  - intros c t Ht. eapply trim_first. exact Ht.
  - intros t c Ht. eapply trim_last. exact Ht.
Qed.

Lemma param_names_shape_witness :
  In "user" (extractFunctionParamNames "async login( user , opts) {}") /\
  all_chars (not_char ",") "user" = true.
Proof.
  assert (Hin : In "user" (extractFunctionParamNames "async login( user , opts) {}"))
    by (vm_compute; left; reflexivity).
  split; [exact Hin|]. exact (proj1 (proj2 (param_names_shape _ _ Hin))).
Defined.

(** *** Formatting: plain texts, padded names, paths on primitives *)

Lemma no_curly_matches : forall d,
  all_chars (not_char "{") d = true -> curly_matches d = [].
Proof.
  intros d H. unfold curly_matches, match_all. simpl.
  rewrite exec_curly_none by exact H. reflexivity.
Qed.

(** X6: a description with no [{] and no [[] is the step title as it is,
    whatever the method's parameters and arguments. *)
Theorem plain_description_verbatim : forall methodName d fnStr args,
  d <> EmptyString ->
  all_chars (not_char "{") d = true -> all_chars (not_char "[") d = true ->
  step_description methodName (Some d) fnStr args = inr d.
Proof.
  intros methodName d fnStr args Hne H1 H2.
  rewrite step_description_nonempty by exact Hne. cbv zeta.
  unfold getPlaceholders. rewrite no_curly_matches, no_square_matches by assumption.
  reflexivity.
Qed.

Lemma plain_description_verbatim_witness :
  step_description "CartPage.checkout" (Some "Check out the cart") "checkout(user) {}" []
    = inr "Check out the cart".
Proof.
  apply plain_description_verbatim; [discriminate | reflexivity | reflexivity].
Defined.

Lemma extracted_name_head : forall fnStr name c t,
  In name (extractFunctionParamNames fnStr) -> name = String c t -> is_space c = false.
Proof.
  intros fnStr name c t H ->. unfold extractFunctionParamNames in H.
  destruct (regex_match param_re fnStr) as [cs|]; [|contradiction].
  apply filter_In in H as [H _]. apply in_map_iff in H as [x [Hx _]].
  eapply trim_first. exact Hx.
Qed.

Lemma root_head : forall c t, char_eqb c "." = false -> exists y, root (String c t) = String c y.
Proof.
  intros c t H. unfold root. simpl. rewrite H.
  destruct (split "." t) as [|x xs]; eexists; reflexivity.
Qed.

Lemma list_index_of_mem : forall x l i, list_index_of x l = Some i -> mem x l = true.
Proof.
  intros x l; induction l as [|y l IH]; intros i H; simpl in H; [discriminate|].
  unfold mem. simpl. destruct (String.eqb x y); [reflexivity|].
  destruct (list_index_of x l) as [j|] eqn:E; [|discriminate]. apply (IH j). reflexivity.
Qed.

Lemma split_nonempty : forall c s, exists x xs, split c s = x :: xs.
Proof.
  intros c s; induction s as [|d s (x & xs & IH)]; simpl; [eauto|].
  rewrite IH. destruct (char_eqb d c); eauto.
Qed.

(** X7: a named placeholder whose text starts with white space, such as
    [{{ user }}], is always reported missing: the extracted parameter names
    never start with white space. *)
Theorem padded_placeholder_missing : forall methodName fnStr args pre ph post,
  all_chars (not_char "{") pre = true -> all_chars (not_char "[") pre = true ->
  all_chars (not_char "{") post = true -> all_chars (not_char "[") post = true ->
  all_chars (not_char "}") ph = true -> all_chars (not_char "[") ph = true ->
  all_chars (fun c => negb (is_line_terminator c)) ph = true ->
  (exists c t, ph = String c t /\ is_space c = true) ->
  step_description methodName (Some (pre ++ "{{" ++ ph ++ "}}" ++ post)) fnStr args =
  inl (FormatError (MissingParameters methodName [root ph])).
Proof.
  intros methodName fnStr args pre ph post Hp1 Hp2 Hq1 Hq2 H1 H2 H3 (c & t & Hph & Hsp).
  replace (pre ++ "{{" ++ ph ++ "}}" ++ post) with (join ("{{" ++ ph ++ "}}") [pre; post])
    by (change (join ("{{" ++ ph ++ "}}") [pre; post]) with (pre ++ ("{{" ++ ph ++ "}}") ++ post);
        rewrite !append_assoc_s; reflexivity).
  rewrite step_description_nonempty by (destruct pre; discriminate). cbv zeta.
  rewrite placeholders_of_join; try assumption.
  2: { split; assumption. }
  2: { repeat constructor; assumption. }
  simpl repeat. unfold findMissingParams. cbn [filter map].
  rewrite p_not_positional by assumption. simpl negb. cbv iota. cbn [map filter].
  assert (Hdot : char_eqb c "." = false).
  { destruct (char_eqb c ".") eqn:E; [|reflexivity].
    apply char_eqb_eq in E. subst. discriminate. }
  destruct (root_head c t Hdot) as [y Hy]. rewrite <- Hph in Hy.
  destruct (mem (root ph) (extractFunctionParamNames fnStr)) eqn:E; [|reflexivity].
  unfold mem in E. apply existsb_exists in E as (name & Hin & Heq).
  apply String.eqb_eq in Heq. rewrite Hy in Heq. subst name.
  apply (extracted_name_head fnStr _ c y) in Hin; [|reflexivity]. congruence.
Qed.

Lemma padded_placeholder_missing_witness :
  step_description "LoginPage.login" (Some "Log in as {{ user }}") "login(user) {}" [VStr "ann"]
    = inl (FormatError (MissingParameters "LoginPage.login" [" user "])).
Proof.
  exact (padded_placeholder_missing "LoginPage.login" "login(user) {}" [VStr "ann"]
           "Log in as " " user " "" eq_refl eq_refl eq_refl eq_refl eq_refl eq_refl eq_refl
           (ex_intro _ " "%char (ex_intro _ "user " (conj eq_refl eq_refl)))).
Defined.

(** X8: a property path on an argument that is not an object (a string, a
    number, a boolean, [null], [undefined] or a function), such as
    [{{name.length}}] for a string [name], fails with the missing-property
    error naming the first property of the path, even when the value has
    that property ([length] of a string). *)
Theorem primitive_property_path_fails : forall methodName fnStr args pre r q post i,
  all_chars (not_char "{") pre = true -> all_chars (not_char "[") pre = true ->
  all_chars (not_char "{") post = true -> all_chars (not_char "[") post = true ->
  all_chars (not_char "}") (r ++ "." ++ q) = true ->
  all_chars (not_char "[") (r ++ "." ++ q) = true ->
  all_chars (fun c => negb (is_line_terminator c)) (r ++ "." ++ q) = true ->
  all_chars (not_char ".") r = true ->
  list_index_of r (extractFunctionParamNames fnStr) = Some i ->
  is_object (JV (arg_at args i)) = false ->
  step_description methodName (Some (pre ++ "{{" ++ (r ++ "." ++ q) ++ "}}" ++ post)) fnStr args =
  inl (FormatError (MissingProperty methodName (r ++ "." ++ q) (hd "" (split "." q)) r)).
Proof.
  intros methodName fnStr args pre r q post i Hp1 Hp2 Hq1 Hq2 H1 H2 H3 Hr Hi Hv.
  set (ph := r ++ "." ++ q) in *.
  assert (Hsplit : split "." ph = r :: split "." q) by (apply split_app_sep; exact Hr).
  assert (Hroot : root ph = r) by (unfold root; rewrite Hsplit; reflexivity).
  replace (pre ++ "{{" ++ ph ++ "}}" ++ post) with (join ("{{" ++ ph ++ "}}") [pre; post])
    by (change (join ("{{" ++ ph ++ "}}") [pre; post]) with (pre ++ ("{{" ++ ph ++ "}}") ++ post);
        rewrite !append_assoc_s; reflexivity).
  rewrite step_description_nonempty by (destruct pre; discriminate). cbv zeta.
  rewrite placeholders_of_join; try assumption.
  2: { split; assumption. }
  2: { repeat constructor; assumption. }
  rewrite findMissingParams_repeat; try assumption.
  2: { rewrite Hroot. eapply list_index_of_mem. exact Hi. }
  simpl repeat. unfold formatDescription. cbn [format_loop]. unfold format_placeholder.
  rewrite p_not_positional by assumption. simpl andb. cbv iota.
  unfold resolve_named. cbv zeta. rewrite Hsplit. cbn [hd tl]. rewrite Hi.
  destruct (split_nonempty "." q) as (x & xs & Hq). rewrite Hq.
  cbn [walk_path]. rewrite Hv. reflexivity.
Qed.

Lemma primitive_property_path_fails_witness :
  step_description "NavPage.open" (Some "Open {{page.length}} pages") "open(page) {}" [VStr "home"]
    = inl (FormatError (MissingProperty "NavPage.open" "page.length" "length" "page")).
Proof.
  exact (primitive_property_path_fails "NavPage.open" "open(page) {}" [VStr "home"]
           "Open " "page" "length" " pages" 0
           eq_refl eq_refl eq_refl eq_refl eq_refl eq_refl eq_refl eq_refl eq_refl eq_refl).
Defined.

(** X15: a property path is looked up with [in], which also sees inherited
    properties: [{{r.toString}}] on an ordinary object argument that does
    not own [toString] resolves to [Object.prototype.toString], and the
    placeholder is replaced by that function's source text. *)
Theorem inherited_property_resolves : forall methodName fnStr args pre r post i own,
  all_chars (not_char "{") pre = true -> all_chars (not_char "[") pre = true ->
  all_chars (not_char "{") post = true -> all_chars (not_char "[") post = true ->
  all_chars (not_char "}") (r ++ "." ++ "toString") = true ->
  all_chars (not_char "[") (r ++ "." ++ "toString") = true ->
  all_chars (fun c => negb (is_line_terminator c)) (r ++ "." ++ "toString") = true ->
  all_chars (not_char ".") r = true ->
  list_index_of r (extractFunctionParamNames fnStr) = Some i ->
  arg_at args i = VObj own PObjectPrototype ->
  assoc "toString" own = None ->
  step_description methodName
    (Some (pre ++ "{{" ++ (r ++ "." ++ "toString") ++ "}}" ++ post)) fnStr args =
  inr (pre ++ "function toString() { [native code] }" ++ post).
Proof.
  intros methodName fnStr args pre r post i own Hp1 Hp2 Hq1 Hq2 H1 H2 H3 Hr Hi Hv Hown.
  set (ph := r ++ "." ++ "toString") in *.
  assert (Hsplit : split "." ph = r :: ["toString"]) by (apply split_app_sep; exact Hr).
  assert (Hroot : root ph = r) by (unfold root; rewrite Hsplit; reflexivity).
  replace (pre ++ "{{" ++ ph ++ "}}" ++ post) with (join ("{{" ++ ph ++ "}}") [pre; post])
    by (change (join ("{{" ++ ph ++ "}}") [pre; post]) with (pre ++ ("{{" ++ ph ++ "}}") ++ post);
        rewrite !append_assoc_s; reflexivity).
  rewrite step_description_nonempty by (destruct pre; discriminate). cbv zeta.
  rewrite placeholders_of_join; try assumption.
  2: { split; assumption. }
  2: { repeat constructor; assumption. }
  rewrite findMissingParams_repeat; try assumption.
  2: { rewrite Hroot. eapply list_index_of_mem. exact Hi. }
  simpl repeat. unfold formatDescription. cbn [format_loop]. unfold format_placeholder.
  rewrite p_not_positional by assumption. simpl andb. cbv iota.
  unfold resolve_named. cbv zeta. rewrite Hsplit. cbn [hd tl]. rewrite Hi, Hv.
  cbn [walk_path is_object has_property get andb]. rewrite Hown. cbv iota.
  change (proto_has PObjectPrototype "toString") with true.
  change (proto_get PObjectPrototype PObjectPrototype "toString") with (JNative NToString).
  cbn [andb walk_path].
  change (js_String (JNative NToString)) with
    (inr (B := string) (A := js_exn) "function toString() { [native code] }").
  cbv iota. change (join ("{{" ++ ph ++ "}}") [pre; post]) with (pre ++ ("{{" ++ ph ++ "}}") ++ post).
  rewrite replace_first; [reflexivity | exact Hp1 | reflexivity].
Qed.

Lemma inherited_property_resolves_witness :
  step_description "LoginPage.login" (Some "as {{user.toString}}") "login(user) {}"
    [VObj [("name", VStr "ann")] PObjectPrototype]
    = inr "as function toString() { [native code] }".
Proof.
  exact (inherited_property_resolves "LoginPage.login" "login(user) {}"
           [VObj [("name", VStr "ann")] PObjectPrototype] "as " "user" "" 0 [("name", VStr "ann")]
           eq_refl eq_refl eq_refl eq_refl eq_refl eq_refl eq_refl eq_refl eq_refl eq_refl eq_refl).
Defined.

(** *** A failing conversion *)

(** X14: when [String(...)] of a placeholder's value throws (an object with
    no usable [toString] or [valueOf], or one whose method throws), the call
    throws that exception synchronously, before any step: no event is
    recorded, the step context is untouched and the original method does
    not run; a failed conversion is a fresh [TypeError], a value thrown by
    the user's method is rethrown as it is. *)
Theorem conversion_failure_throws_before_step :
  forall ctorName name description fnStr args stack target w x,
    step_description (ctorName ++ "." ++ name) description fnStr args = inl (ConversionError x) ->
    replacementMethod ctorName name description fnStr args stack target w =
      match x with
      | ExnTypeError msg =>
          ({| slot := slot w; trace := trace w; next_id := S (next_id w) |},
           SyncThrow (ThrowError {| err_id := next_id w; err_name := "TypeError";
                                    err_message := msg;
                                    err_stack := Some ("TypeError: " ++ msg) |}))
      | ExnThrow v => (w, SyncThrow (ThrowValue v))
      end.
Proof.
  intros * H. unfold replacementMethod. rewrite H. destruct x; reflexivity.
Qed.

Lemma conversion_failure_throws_before_step_witness :
  step_description ("Page" ++ "." ++ "open") (Some "Open {{u}}") "open(u) {}" [VObj [] PNull]
    = inl (ConversionError (ExnTypeError "Cannot convert object to primitive value")) /\
  replacementMethod "Page" "open" (Some "Open {{u}}") "open(u) {}" [VObj [] PNull] None
    (eval "Page" (PLog "body ran")) w0 =
    ({| slot := None; trace := []; next_id := 1 |},
     SyncThrow (ThrowError {| err_id := 0; err_name := "TypeError";
        err_message := "Cannot convert object to primitive value";
        err_stack := Some ("TypeError: " ++ "Cannot convert object to primitive value") |})).
Proof.
  split; [reflexivity|].
  exact (conversion_failure_throws_before_step "Page" "open" (Some "Open {{u}}") "open(u) {}"
           [VObj [] PNull] None (eval "Page" (PLog "body ran")) w0
           (ExnTypeError "Cannot convert object to primitive value") eq_refl).
Defined.

(** *** The decorated call *)

Lemma eval_seq : forall ctorName p q w,
  eval ctorName (PSeq p q) w =
  let (w1, c) := eval ctorName p w in
  match c with Normal _ => eval ctorName q w1 | Abrupt t => (w1, Abrupt t) end.
Proof. reflexivity. Qed.

Lemma eval_try : forall ctorName p h w,
  eval ctorName (PTry p h) w =
  let (w1, c) := eval ctorName p w in
  match c with Normal v => (w1, Normal v) | Abrupt _ => eval ctorName h w1 end.
Proof. reflexivity. Qed.

(** A call whose description formats to [t]: one step titled [t] is opened,
    the body runs with the step context set, the context is removed and the
    body's error, if any, goes through the [catch] block. *)
Lemma eval_call_formatted : forall ctorName name d fnStr args st body w t,
  step_description (ctorName ++ "." ++ name) d fnStr args = inr t ->
  eval ctorName (PCall name d fnStr args st body) w =
  let (w2, c) := eval ctorName body
                   {| slot := Some (next_id w);
                      trace := EvStep t (captureCallSiteLocation st) :: trace w;
                      next_id := S (next_id w) |} in
  (set_slot w2 None, match c with Normal v => Normal v | Abrupt e => Abrupt (catch_rethrow e) end).
Proof.
  intros ctorName name d fnStr args st body w t H. simpl. unfold replacementMethod.
  rewrite H. unfold test_step. simpl.
  destruct (eval ctorName body _) as [w2 c]. reflexivity.
Qed.

Lemma eval_trace_extends : forall ctorName p w,
  exists l, trace (fst (eval ctorName p w)) = (l ++ trace w)%list.
Proof.
  intros ctorName p. induction p as [v|t|m| |p IHp q IHq|p IHp h IHh|name d fnStr args st body IH];
    intros w; simpl.
  - exists []. reflexivity.
  - exists []. reflexivity.
  - exists [EvLog m]. reflexivity.
  - unfold getStepInfo. destruct (slot w); exists []; reflexivity.
  - destruct (IHp w) as [l1 H1]. destruct (eval ctorName p w) as [w1 [v|t]]; simpl in *.
    + destruct (IHq w1) as [l2 H2]. exists (l2 ++ l1)%list. rewrite H2, H1, app_assoc. reflexivity.
    + exists l1. exact H1.
  - destruct (IHp w) as [l1 H1]. destruct (eval ctorName p w) as [w1 [v|t]]; simpl in *.
    + exists l1. exact H1.
    + destruct (IHh w1) as [l2 H2]. exists (l2 ++ l1)%list. rewrite H2, H1, app_assoc. reflexivity.
  - unfold replacementMethod.
    destruct (step_description (ctorName ++ "." ++ name) d fnStr args) as [e|t].
    + exists []. destruct e as [e|[m|v]]; reflexivity.
    + unfold test_step. simpl.
      destruct (IH {| slot := Some (next_id w);
                      trace := EvStep t (captureCallSiteLocation st) :: trace w;
                      next_id := S (next_id w) |}) as [l Hl].
      destruct (eval ctorName body _) as [w2 c]. simpl in *.
      exists (l ++ [EvStep t (captureCallSiteLocation st)])%list.
      destruct c; simpl; rewrite Hl, <- app_assoc; reflexivity.
Qed.

(** X9: a method decorated without a description (or with an empty one)
    never fails before its step: the step titled [ClassName.methodName] is
    recorded, everything the body does comes after it, and the step context
    is removed at the end. *)
Theorem undescribed_call_step : forall ctorName name d fnStr args st body w,
  d = None \/ d = Some EmptyString ->
  exists events,
    trace (fst (eval ctorName (PCall name d fnStr args st body) w)) =
      (events ++ EvStep (ctorName ++ "." ++ name) (captureCallSiteLocation st) :: trace w)%list /\
    slot (fst (eval ctorName (PCall name d fnStr args st body) w)) = None.
Proof.
  intros ctorName name d fnStr args st body w Hd.
  rewrite (eval_call_formatted _ _ _ _ _ _ _ _ (ctorName ++ "." ++ name))
    by (destruct Hd as [-> | ->]; reflexivity).
  match goal with |- context [eval ctorName body ?w0] =>
    destruct (eval_trace_extends ctorName body w0) as [l Hl];
    destruct (eval ctorName body w0) as [w2 c] end.
  exists l. simpl in *. split; [exact Hl | reflexivity].
Qed.

Lemma undescribed_call_step_witness :
  exists events,
    trace (fst (eval "CartPage" (PCall "open" None "open() {}" [] None (PLog "opened")) w0)) =
      (events ++ [EvStep "CartPage.open" None])%list /\
    slot (fst (eval "CartPage" (PCall "open" None "open() {}" [] None (PLog "opened")) w0)) = None.
Proof.
  exact (undescribed_call_step "CartPage" "open" None "open() {}" [] None (PLog "opened") w0
           (or_introl eq_refl)).
Defined.

Lemma catch_rethrow_message : forall e,
  exists e', catch_rethrow (ThrowError e) = ThrowError e' /\ err_message e' = err_message e.
Proof.
  intros e. unfold catch_rethrow. destruct (err_stack e) as [st|]; [|eauto].
  destruct (Nat.eqb (String.length st) 0); eexists; split; reflexivity.
Qed.

(** X10: calling another decorated method of the same instance removes the
    step context of the calling method: once the inner call has settled,
    whether it returned or threw, [getStepInfo] in the outer body throws the
    no-step-context error, and the outer call rejects with it. *)
Theorem nested_call_clears_step_context :
  forall ctorName outer d1 fn1 args1 st1 inner d2 fn2 args2 st2 body w t1 t2,
  step_description (ctorName ++ "." ++ outer) d1 fn1 args1 = inr t1 ->
  step_description (ctorName ++ "." ++ inner) d2 fn2 args2 = inr t2 ->
  exists e,
    snd (eval ctorName
           (PCall outer d1 fn1 args1 st1
              (PSeq (PTry (PCall inner d2 fn2 args2 st2 body) (PReturn VUndefined))
                    PGetStepInfo)) w) = Abrupt (ThrowError e) /\
    err_message e = no_step_context_message.
Proof.
  intros ctorName outer d1 fn1 args1 st1 inner d2 fn2 args2 st2 body w t1 t2 H1 H2.
  rewrite (eval_call_formatted _ _ _ _ _ _ _ _ _ H1).
  rewrite eval_seq, eval_try, (eval_call_formatted _ _ _ _ _ _ _ _ _ H2).
  match goal with |- context [eval ctorName body ?w0] =>
    destruct (eval ctorName body w0) as [w2 c] end.
  destruct (catch_rethrow_message
              (snd (new_error (set_slot w2 None) no_step_context_message))) as (e' & He & Hm).
  exists e'. split; [|exact Hm].
  destruct c; simpl; simpl in He; rewrite He; reflexivity.
Qed.

Lemma nested_call_clears_step_context_witness :
  exists e,
    snd (eval "CartPage"
           (PCall "checkout" (Some "Check out") "checkout() {}" [] None
              (PSeq (PTry (PCall "open" None "open() {}" [] None (PLog "opened"))
                          (PReturn VUndefined))
                    PGetStepInfo)) w0) = Abrupt (ThrowError e) /\
    err_message e = no_step_context_message.
Proof.
  exact (nested_call_clears_step_context "CartPage" "checkout" (Some "Check out") "checkout() {}" []
           None "open" None "open() {}" [] None (PLog "opened") w0 "Check out" "CartPage.open"
           eq_refl eq_refl).
Defined.

(** *** Positional placeholders and the canonical form of their index *)

Lemma string_of_uint_digits : forall u, all_chars is_digit (NilEmpty.string_of_uint u) = true.
Proof. induction u; simpl; auto. Qed.

Lemma z_to_string_digits : forall z, (0 <= z)%Z -> all_chars is_digit (z_to_string z) = true.
Proof.
  intros z H. unfold z_to_string. destruct z as [|p|p]; [reflexivity| |lia].
  simpl. unfold NilZero.string_of_uint.
  destruct (Pos.to_uint p); try apply string_of_uint_digits. reflexivity.
Qed.

Lemma all_chars_impl : forall (p q : ascii -> bool) s,
  (forall c, p c = true -> q c = true) -> all_chars p s = true -> all_chars q s = true.
Proof.
  intros p q s H; induction s as [|c s IH]; intros Hs; [reflexivity|]. simpl in *.
  apply andb_prop in Hs as [H1 H2]. rewrite H, IH by assumption. reflexivity.
Qed.

Lemma digit_not_char : forall c d, is_digit d = false -> is_digit c = true -> not_char d c = true.
Proof.
  intros c d Hd Hc. unfold not_char. destruct (char_eqb c d) eqn:E; [|reflexivity].
  apply char_eqb_eq in E. subst. congruence.
Qed.

Lemma exec_from_lit_false : forall c r b s,
  exec_from (Lit c :: r) b s = exec_from (Lit c :: r) false s.
Proof. intros c r b [|d s]; reflexivity. Qed.

Lemma exec_lit_skip : forall c r b pre s,
  all_chars (not_char c) pre = true ->
  exec_from (Lit c :: r) b (pre ++ s) = exec_from (Lit c :: r) b s.
Proof.
  intros c r b pre s; revert b; induction pre as [|d pre IH]; intros b H; [reflexivity|].
  simpl in H. apply andb_prop in H as [Hd H].
  change (String d pre ++ s) with (String d (pre ++ s)).
  rewrite exec_from_eq, not_char_lit by exact Hd. rewrite IH by exact H.
  symmetry. apply exec_from_lit_false.
Qed.

Lemma exec_lit_none : forall c r b s,
  all_chars (not_char c) s = true -> exec_from (Lit c :: r) b s = None.
Proof.
  intros c r b s H. rewrite <- (append_nil_s s), exec_lit_skip by exact H. reflexivity.
Qed.

Lemma no_start_sdrop : forall c q k x,
  all_chars (not_char c) x = true -> starts_with (String c q) (sdrop k x) = false.
Proof.
  intros c q k x H. pose proof (sdrop_all_chars _ k x H) as Hk.
  destruct (sdrop k x) as [|d y]; [reflexivity|]. simpl in Hk |- *.
  apply andb_prop in Hk as [Hd _]. unfold not_char in Hd.
  rewrite char_eqb_sym. destruct (char_eqb d c); [discriminate|reflexivity].
Qed.

Lemma index_of_skip : forall c q acc rest,
  all_chars (not_char c) acc = true ->
  index_of (String c q) (acc ++ String c q ++ rest) = Some (String.length acc).
Proof.
  intros c q; induction acc as [|d acc IH]; intros rest H.
  - replace ("" ++ String c q ++ rest) with (String c q ++ rest) by reflexivity.
    rewrite index_of_eq, starts_with_app. reflexivity.
  - simpl in H. apply andb_prop in H as [Hd H]. rewrite index_of_eq.
    change (String d acc ++ String c q ++ rest) with (String d (acc ++ String c q ++ rest)).
    cbn [starts_with]. unfold not_char in Hd. rewrite char_eqb_sym.
    destruct (char_eqb d c); [discriminate|]. simpl andb. cbv iota.
    rewrite IH by exact H. reflexivity.
Qed.

Lemma replace_at : forall c q acc rest r,
  all_chars (not_char c) acc = true -> all_chars (not_char "$") r = true ->
  replace (acc ++ String c q ++ rest) (String c q) r = acc ++ r ++ rest.
Proof.
  intros c q acc rest r Ha Hr. unfold replace. rewrite index_of_skip by exact Ha.
  cbv zeta. rewrite stake_app, get_substitution_plain by exact Hr.
  rewrite sdrop_app_ge by lia. replace (_ + _ - _) with (String.length (String c q)) by lia.
  rewrite sdrop_app. reflexivity.
Qed.

Lemma starts_with_app_l : forall p q s, starts_with (p ++ q) s = true -> starts_with p s = true.
Proof.
  induction p as [|c p IH]; intros q [|d s] H; simpl in *; try reflexivity; try discriminate.
  apply andb_prop in H as [H1 H2]. rewrite H1. simpl. eapply IH. exact H2.
Qed.

Lemma digits_bracket_prefix : forall a b x,
  all_chars is_digit a = true -> all_chars is_digit b = true ->
  starts_with (a ++ "]") (b ++ "]" ++ x) = true -> a = b.
Proof.
  induction a as [|c a IH]; intros [|d b] x Ha Hb H; simpl in *.
  - reflexivity.
  - apply andb_prop in Hb as [Hd _]. apply andb_prop in H as [H _].
    apply char_eqb_eq in H. subst. discriminate.
  - apply andb_prop in Ha as [Hc _]. apply andb_prop in H as [H _].
    apply char_eqb_eq in H. subst. discriminate.
  - apply andb_prop in Ha as [Hc Ha]. apply andb_prop in Hb as [Hd Hb].
    apply andb_prop in H as [H1 H2]. apply char_eqb_eq in H1. subst.
    f_equal. eapply IH; eassumption.
Qed.

Lemma square_at : forall b ds rest,
  all_chars is_digit ds = true -> ds <> EmptyString ->
  match_here square_re b ("[[" ++ ds ++ "]]" ++ rest) = Some ([ds], rest).
Proof.
  intros b ds rest Hd Hne. unfold square_re. cbn [String.append].
  rewrite !match_here_lit_cons, !char_eqb_refl, match_here_rep. unfold rep_candidates.
  rewrite (run_length_stop DigitChar ds "]" _ Hd) by reflexivity.
  destruct (String.length ds) as [|n] eqn:En; [destruct ds; [contradiction|discriminate]|].
  replace (S (S n) - 1) with (S n) by lia. rewrite seq_S, rev_app_distr.
  cbv zeta iota. cbn [rev app first_some]. replace (1 + n) with (String.length ds) by lia.
  rewrite sdrop_app, stake_app, match_two_lits_start. reflexivity.
Qed.

Lemma square_matches_single : forall pre ds post,
  all_chars (not_char "[") pre = true -> all_chars (not_char "[") post = true ->
  all_chars is_digit ds = true -> ds <> EmptyString ->
  square_matches (pre ++ "[[" ++ ds ++ "]]" ++ post) = [ds].
Proof.
  intros pre ds post Hp Hq Hd Hne. unfold square_matches, match_all.
  remember (String.length (pre ++ "[[" ++ ds ++ "]]" ++ post)) as n eqn:En.
  cbn [match_all_fuel]. unfold square_re at 1. rewrite exec_lit_skip by exact Hp.
  rewrite exec_from_eq. fold square_re. rewrite square_at by assumption.
  replace (Nat.eqb (String.length post) (String.length ("[[" ++ ds ++ "]]" ++ post))) with false
    by (symmetry; apply Nat.eqb_neq; simpl; rewrite !length_app; simpl; lia).
  destruct n as [|f]; [rewrite !length_app in En; simpl in En; lia|].
  cbn [match_all_fuel]. unfold square_re. rewrite exec_lit_none by exact Hq. reflexivity.
Qed.

(** X11: for a positional placeholder [[[ds]]] (a run of digits) whose index
    is below the argument count, [String(args[index])] is always evaluated
    (its exception, if any, is thrown), and its text replaces the
    placeholder only when [ds] is the canonical decimal form of the index;
    written with leading zeros, such as [[[01]]], it is looked up as
    [[[1]]], not found, and left in the description unchanged. *)
Theorem positional_index_canonical_form : forall methodName fnStr args pre ds post,
  all_chars (not_char "{") pre = true -> all_chars (not_char "[") pre = true ->
  all_chars (not_char "{") post = true -> all_chars (not_char "[") post = true ->
  all_chars is_digit ds = true -> ds <> EmptyString ->
  (digits_value_acc 0 ds < Z.of_nat (List.length args))%Z ->
  (Z.of_nat (List.length args) <= 2 ^ 53)%Z ->
  (forall txt, js_String (JV (arg_at args (Z.to_nat (digits_value_acc 0 ds)))) = inr txt ->
               all_chars (not_char "$") txt = true) ->
  step_description methodName (Some (pre ++ "[[" ++ ds ++ "]]" ++ post)) fnStr args =
  match js_String (JV (arg_at args (Z.to_nat (digits_value_acc 0 ds)))) with
  | inl x => inl (ConversionError x)
  | inr txt =>
      inr (if String.eqb (z_to_string (digits_value_acc 0 ds)) ds
           then pre ++ txt ++ post
           else pre ++ "[[" ++ ds ++ "]]" ++ post)
  end.
Proof.
  intros methodName fnStr args pre ds post Hp1 Hp2 Hq1 Hq2 Hd Hne Hlt Hlen Hv.
  set (z := digits_value_acc 0 ds) in *.
  destruct (parse_int_digits ds Hd Hne) as [Hz Hz0]. fold z in Hz, Hz0.
  rewrite number_of_Z_exact in Hz by lia.
  assert (Hnd : all_chars (not_char "{") ("[[" ++ ds ++ "]]" ++ post) = true).
  { assert (Hdd : all_chars (not_char "{") ds = true).
    { apply (all_chars_impl is_digit); [|exact Hd]. intros c Hc. apply digit_not_char; auto. }
    rewrite !all_chars_app, Hq1, Hdd. reflexivity. }
  rewrite step_description_nonempty by (destruct pre; discriminate). cbv zeta.
  unfold getPlaceholders.
  rewrite no_curly_matches by (rewrite all_chars_app, Hp1; exact Hnd).
  rewrite square_matches_single by assumption. cbn [app map].
  unfold findMissingParams. cbn [filter]. rewrite starts_with_app. simpl negb. cbv iota.
  cbn [map filter]. unfold formatDescription. cbn [format_loop].
  rewrite (format_placeholder_positional _ _ _ _ _ z Hz).
  replace ((z <? 0)%Z || (Z.of_nat (List.length args) <=? z)%Z) with false
    by (symmetry; apply orb_false_iff; split; [apply Z.ltb_ge | apply Z.leb_gt]; lia).
  rewrite number_to_string_exact by lia.
  destruct (js_String (JV (arg_at args (Z.to_nat z)))) as [x|txt] eqn:J; [reflexivity|].
  specialize (Hv txt eq_refl).
  pose proof (z_to_string_digits z Hz0) as Hzd.
  destruct (String.eqb (z_to_string z) ds) eqn:E.
  - apply String.eqb_eq in E. rewrite E.
    change ("[[" ++ ds ++ "]]") with (String "[" ("[" ++ ds ++ "]]")).
    replace ("[[" ++ ds ++ "]]" ++ post) with (String "[" ("[" ++ ds ++ "]]") ++ post)
      by (simpl; rewrite !append_assoc_s; reflexivity).
    rewrite replace_at by assumption. reflexivity.
  - apply String.eqb_neq in E. f_equal. unfold replace.
    rewrite index_of_none; [reflexivity|]. intros m _.
    destruct (Nat.lt_trichotomy m (String.length pre)) as [Hm|[Hm|Hm]].
    + rewrite sdrop_app_le by lia. destruct (sdrop_lt_head _ m pre Hp2 Hm) as (c & u & -> & Hc).
      change (String c u ++ "[[" ++ ds ++ "]]" ++ post)
        with (String c (u ++ "[[" ++ ds ++ "]]" ++ post)).
      simpl String.append at 1. cbn [starts_with]. unfold not_char in Hc.
      rewrite char_eqb_sym. destruct (char_eqb c "["); [discriminate|reflexivity].
    + subst m. rewrite sdrop_app.
      change (starts_with (String "[" (String "[" (z_to_string z ++ "]]")))
                (String "[" (String "[" (ds ++ "]]" ++ post))) = false).
      cbn [starts_with]. rewrite char_eqb_refl. simpl andb.
      destruct (starts_with (z_to_string z ++ "]]") (ds ++ "]]" ++ post)) eqn:Es;
        [|exact Es].
      exfalso. apply E. apply (digits_bracket_prefix _ _ ("]" ++ post) Hzd Hd).
      apply (starts_with_app_l _ "]").
      rewrite append_assoc_s. exact Es.
    + rewrite sdrop_app_ge by lia.
      destruct (m - String.length pre) as [|[|k]] eqn:Ek; [lia| |].
      * simpl. destruct ds as [|c ds']; [contradiction|]. simpl in Hd |- *.
        apply andb_prop in Hd as [Hc _].
        destruct (char_eqb "[" c) eqn:Ec; [|reflexivity].
        apply char_eqb_eq in Ec. subst. discriminate.
      * apply (no_start_sdrop "[" ("[" ++ z_to_string z ++ "]]") k). rewrite all_chars_app. simpl. rewrite Hq2, andb_true_r.
        apply (all_chars_impl is_digit); [|exact Hd]. intros c Hc. apply digit_not_char; auto.
Qed.

Lemma positional_index_canonical_form_witness :
  step_description "ListPage.pick" (Some "Pick [[01]] of 2") "pick(a, b) {}" [VStr "x"; VStr "y"]
    = inr "Pick [[01]] of 2" /\
  step_description "ListPage.pick" (Some "Pick [[1]] of 2") "pick(a, b) {}" [VStr "x"; VStr "y"]
    = inr "Pick y of 2".
Proof.
  split.
  - exact (positional_index_canonical_form "ListPage.pick" "pick(a, b) {}" [VStr "x"; VStr "y"]
             "Pick " "01" " of 2" eq_refl eq_refl eq_refl eq_refl eq_refl
             ltac:(discriminate) ltac:(vm_compute; reflexivity) ltac:(vm_compute; discriminate)
             (fun txt H => match H in _ = r return
                             match r with inr t => all_chars (not_char "$") t = true | _ => True end
                           with eq_refl => eq_refl end)).
  - exact (positional_index_canonical_form "ListPage.pick" "pick(a, b) {}" [VStr "x"; VStr "y"]
             "Pick " "1" " of 2" eq_refl eq_refl eq_refl eq_refl eq_refl
             ltac:(discriminate) ltac:(vm_compute; reflexivity) ltac:(vm_compute; discriminate)
             (fun txt H => match H in _ = r return
                             match r with inr t => all_chars (not_char "$") t = true | _ => True end
                           with eq_refl => eq_refl end)).
Defined.
